(** * SkyNotes: the note store of [src/app/page.tsx] and its derived view

    The page component keeps three pieces of React state: the note list
    [notes], the transient [searchTerm] and the selected id [activeId].
    Five handlers change that state ([createNote], [updateNote],
    [deleteNote], [duplicateNote] and the list's [setActiveId]), one
    memoised derivation ([filteredNotes]) computes what is rendered, and
    two effects mirror the list to [localStorage] and read it back.

    Every handler is embedded as a function on explicit state.  What the
    handlers read from the browser (the clock, the id generator, the random
    number generator, the JSON codec) is passed in as data or as a
    parameter, so that each theorem says what it assumes about the host. *)

From stdpp Require Import gmap strings list.
From Stdlib Require Import ZArith QArith Qround Ascii String Sorting.Sorted Sorting.Permutation Lia.

Local Open Scope string_scope.
Local Open Scope Z_scope.

(** ** Host string functions

    JavaScript strings are sequences of UTF-16 code units.  The model uses
    Rocq's [string], that is the code units U+0000 to U+00FF.  On strings
    of such units [trim], [includes] and [toLowerCase] are the ones of
    ECMAScript; beyond them the host's [toLowerCase] depends on the context
    of a unit and can change the length, which this model does not show
    (see [Utf16] and [filteredNotesBy]).  [localeCompare] is the code-unit
    order: the host's collation agrees with it on the timestamps that
    [Date.prototype.toISOString] produces for the years 0000 to 9999, and
    not on strings in general. *)
Module Str.

(** WhiteSpace and LineTerminator code units below U+0100:
    TAB, LF, VT, FF, CR, SP and NBSP. *)
Definition isWhiteSpace (c : ascii) : bool :=
  let n := nat_of_ascii c in
  ((9 <=? n) && (n <=? 13) || (n =? 32) || (n =? 160))%nat.

Fixpoint trimStart (s : string) : string :=
  match s with
  | EmptyString => EmptyString
  | String c s' => if isWhiteSpace c then trimStart s' else s
  end.

Fixpoint trimEnd (s : string) : string :=
  match s with
  | EmptyString => EmptyString
  | String c s' =>
      match trimEnd s' with
      | EmptyString => if isWhiteSpace c then EmptyString else String c EmptyString
      | t => String c t
      end
  end.

Definition trim (s : string) : string := trimEnd (trimStart s).

(** A string is truthy when it is not empty. *)
Definition truthy (s : string) : bool :=
  match s with EmptyString => false | String _ _ => true end.

(** Lower-case mapping of one code unit: A-Z, and the Latin-1 capitals
    U+00C0 to U+00DE without the multiplication sign U+00D7. *)
Definition lowerUnit (c : ascii) : ascii :=
  let n := nat_of_ascii c in
  if ((65 <=? n) && (n <=? 90) || (192 <=? n) && (n <=? 222) && negb (n =? 215))%nat
  then ascii_of_nat (n + 32)
  else c.

Fixpoint toLowerCase (s : string) : string :=
  match s with
  | EmptyString => EmptyString
  | String c s' => String (lowerUnit c) (toLowerCase s')
  end.

(** [s.includes(t)]: [t] occurs in [s] at some position. *)
Fixpoint includes (s t : string) : bool :=
  String.prefix t s ||
  match s with
  | EmptyString => false
  | String _ s' => includes s' t
  end.

(** [a.localeCompare(b)]: negative, zero or positive. *)
Definition localeCompare (a b : string) : Z :=
  match String.compare a b with
  | Lt => -1
  | Eq => 0
  | Gt => 1
  end.

End Str.

(** ** Array.prototype.sort

    [sort] is stable and, for a consistent comparator, returns the elements
    in ascending comparator order.  It is embedded as a stable insertion
    sort: an element is placed before the first one it does not exceed. *)
Section ArraySort.
Context {A : Type} (compareFn : A -> A -> Z).

Fixpoint sort_insert (x : A) (l : list A) : list A :=
  match l with
  | [] => [x]
  | y :: l' => if compareFn x y <=? 0 then x :: y :: l' else y :: sort_insert x l'
  end.

Definition sort (l : list A) : list A := foldr sort_insert [] l.
End ArraySort.

(** ** Data model *)

Record Note := mkNote {
  id : string;
  title : string;
  content : string;
  createdAt : string;
  updatedAt : string;
  pinned : bool;
  color : string
}.

Definition palettes : list string :=
  [ "from-sky-400/80 via-sky-500/50 to-blue-900/20";
    "from-purple-400/90 via-indigo-500/50 to-slate-900/20";
    "from-rose-400/80 via-pink-500/40 to-fuchsia-900/20";
    "from-emerald-400/80 via-teal-500/40 to-slate-900/20" ].

(** The component state: [useState] cells [notes], [searchTerm], [activeId]
    ([None] is [null]). *)
Record State := mkState {
  notes : list Note;
  searchTerm : string;
  activeId : option string
}.

(** ** View derivation ([filteredNotes]) *)

(** [Number(b)] on a boolean. *)
Definition Number (b : bool) : Z := if b then 1 else 0.

(** The comparator of both [sort] calls:
    [Number(b.pinned) - Number(a.pinned) || b.updatedAt.localeCompare(a.updatedAt)]. *)
Definition compareNotes (a b : Note) : Z :=
  let d := Number (pinned b) - Number (pinned a) in
  if d =? 0 then Str.localeCompare (updatedAt b) (updatedAt a) else d.

(** The predicate passed to [filter]. *)
Definition matchesTerm (term : string) (note : Note) : bool :=
  Str.includes (Str.toLowerCase (title note)) term
  || Str.includes (Str.toLowerCase (content note)) term.

Definition filteredNotes (notes : list Note) (searchTerm : string) : list Note :=
  if negb (Str.truthy (Str.trim searchTerm)) then
    sort compareNotes notes
  else
    let term := Str.toLowerCase searchTerm in
    sort compareNotes (List.filter (matchesTerm term) notes).

(** ** What a handler reads from the browser

    One record per event.  A handler runs to completion within its event,
    so one clock reading stands for every [new Date()] of that event;
    [Math_random] is the call that picks the color, the call inside the
    fallback id being part of [fallbackId]. *)
Record Host := mkHost {
  (** [crypto.randomUUID()], or [None] where [crypto] or [randomUUID] is missing *)
  crypto_randomUUID : option string;
  (** the text of [`${Date.now()}-${Math.random().toString(16).slice(2, 8)}`] *)
  fallbackId : string;
  (** [new Date().toISOString()] *)
  toISOString : string;
  (** [Math.random()], a rational in the unit interval *)
  Math_random : Q
}.

Definition createId (h : Host) : string :=
  match crypto_randomUUID h with
  | Some uuid => uuid
  | None => fallbackId h
  end.

(** [palettes[i]].  An index outside the array reads [undefined]; no call
    reaches that case (lemma [palette_index_in_range]) and the model
    renders it as the empty string. *)
Definition palette_at (i : Z) : string :=
  if i <? 0 then "" else nth (Z.to_nat i) palettes "".

(** [Math.floor(Math.random() * palettes.length)] *)
Definition palette_index (h : Host) : Z :=
  Qfloor (Math_random h * inject_Z (Z.of_nat (List.length palettes)))%Q.

(** ** The handlers *)

Definition createNote (h : Host) (st : State) : State :=
  let now := toISOString h in
  let newNote :=
    {| id := createId h;
       title := "Untitled";
       content := "";
       createdAt := now;
       updatedAt := now;
       pinned := false;
       color := palette_at (palette_index h) |} in
  {| notes := newNote :: notes st;
     searchTerm := searchTerm st;
     activeId := Some (id newNote) |}.

(** [Partial<Pick<Note, "title" | "content" | "pinned" | "color">>]:
    [None] is a key the payload does not have. *)
Record Payload := mkPayload {
  p_title : option string;
  p_content : option string;
  p_pinned : option bool;
  p_color : option string
}.

(** [{ ...note, ...payload, updatedAt: now }] *)
Definition mergeNote (note : Note) (payload : Payload) (now : string) : Note :=
  {| id := id note;
     title := default (title note) (p_title payload);
     content := default (content note) (p_content payload);
     createdAt := createdAt note;
     updatedAt := now;
     pinned := default (pinned note) (p_pinned payload);
     color := default (color note) (p_color payload) |}.

Definition updateNote (h : Host) (nid : string) (payload : Payload) (st : State) : State :=
  {| notes :=
       map (fun note =>
              if String.eqb (id note) nid
              then mergeNote note payload (toISOString h)
              else note)
           (notes st);
     searchTerm := searchTerm st;
     activeId := activeId st |}.

(** [activeId === id] *)
Definition isActive (st : State) (nid : string) : bool :=
  match activeId st with
  | Some a => String.eqb a nid
  | None => false
  end.

Definition deleteNote (nid : string) (st : State) : State :=
  let filtered := List.filter (fun note => negb (String.eqb (id note) nid)) (notes st) in
  {| notes := filtered;
     searchTerm := searchTerm st;
     activeId :=
       if isActive st nid then
         match filtered with
         | first :: _ => Some (id first)
         | [] => None
         end
       else activeId st |}.

Definition duplicateNote (h : Host) (nid : string) (st : State) : State :=
  match List.find (fun note => String.eqb (id note) nid) (notes st) with
  | None => st
  | Some target =>
      let now := toISOString h in
      let copy :=
        {| id := createId h;
           title := title target ++ " (Copy)";
           content := content target;
           createdAt := now;
           updatedAt := now;
           pinned := pinned target;
           color := color target |} in
      {| notes := copy :: notes st;
         searchTerm := searchTerm st;
         activeId := Some (id copy) |}
  end.

(** The list item's [onClick]: [setActiveId(note.id)]. *)
Definition selectNote (nid : string) (st : State) : State :=
  {| notes := notes st; searchTerm := searchTerm st; activeId := Some nid |}.

(** The five operations of the store as one step function. *)
Inductive Action :=
| Create
| Update (nid : string) (payload : Payload)
| Duplicate (nid : string)
| Delete (nid : string)
| Select (nid : string).

Definition step (h : Host) (st : State) (a : Action) : State :=
  match a with
  | Create => createNote h st
  | Update nid payload => updateNote h nid payload st
  | Duplicate nid => duplicateNote h nid st
  | Delete nid => deleteNote nid st
  | Select nid => selectNote nid st
  end.

Definition emptyState : State :=
  {| notes := []; searchTerm := ""; activeId := None |}.

(** [createNote] called once per host reading, oldest call first. *)
Definition createMany (hs : list Host) : State :=
  foldl (fun st h => createNote h st) emptyState hs.

Definition ids (st : State) : list string := map id (notes st).

(** ** Persistence

    [localStorage] maps keys to strings.  JSON values are what
    [JSON.parse] returns and [JSON.stringify] prints; a number is kept as
    its literal, no field of a note being a number. *)

#[local] Set Warnings "-register-all".

Inductive json : Type :=
| JNull
| JBool (b : bool)
| JNumber (literal : string)
| JString (s : string)
| JArray (items : list json)
| JObject (members : list (string * json)).

(** The object that a [Note] is at run time, keys in creation order. *)
Definition note_to_json (note : Note) : json :=
  JObject
    [ ("id", JString (id note));
      ("title", JString (title note));
      ("content", JString (content note));
      ("createdAt", JString (createdAt note));
      ("updatedAt", JString (updatedAt note));
      ("pinned", JBool (pinned note));
      ("color", JString (color note)) ].

Definition notes_to_json (ns : list Note) : json := JArray (map note_to_json ns).

(** Reading an object through the [Note] interface ([parsed as Note[]] is a
    cast: it checks nothing at run time). *)
Definition member (key : string) (members : list (string * json)) : option json :=
  option_map snd (List.find (fun kv => String.eqb (fst kv) key) members).

Definition stringMember (key : string) (members : list (string * json)) : option string :=
  match member key members with Some (JString s) => Some s | _ => None end.

Definition boolMember (key : string) (members : list (string * json)) : option bool :=
  match member key members with Some (JBool b) => Some b | _ => None end.

Definition note_of_json (v : json) : option Note :=
  match v with
  | JObject ms =>
      match stringMember "id" ms, stringMember "title" ms, stringMember "content" ms,
            stringMember "createdAt" ms, stringMember "updatedAt" ms,
            boolMember "pinned" ms, stringMember "color" ms with
      | Some i, Some t, Some c, Some ca, Some ua, Some p, Some col =>
          Some {| id := i; title := t; content := c; createdAt := ca;
                  updatedAt := ua; pinned := p; color := col |}
      | _, _, _, _, _, _, _ => None
      end
  | _ => None
  end.

Fixpoint asNotes (items : list json) : option (list Note) :=
  match items with
  | [] => Some []
  | v :: items' =>
      match note_of_json v, asNotes items' with
      | Some note, Some ns => Some (note :: ns)
      | _, _ => None
      end
  end.

(** A call either returns a value or throws; the error is its message. *)
Inductive outcome (A : Type) : Type :=
| Returns (a : A)
| Throws (error : string).
Arguments Returns {A} a.
Arguments Throws {A} error.

(** The console: the [(message, error)] pairs given to [console.warn]. *)
Definition Console : Type := list (string * string).

(** Code that may throw and may write to the console. *)
Definition Eff (A : Type) : Type := Console -> outcome A * Console.

Definition ret {A} (a : A) : Eff A := fun log => (Returns a, log).

Definition call {A} (o : outcome A) : Eff A := fun log => (o, log).

Definition bind {A B} (m : Eff A) (k : A -> Eff B) : Eff B :=
  fun log =>
    match m log with
    | (Returns a, log') => k a log'
    | (Throws e, log') => (Throws e, log')
    end.

Definition tryCatch {A} (body : Eff A) (handler : string -> Eff A) : Eff A :=
  fun log =>
    match body log with
    | (Returns a, log') => (Returns a, log')
    | (Throws e, log') => handler e log'
    end.

Definition console_warn (message error : string) : Eff unit :=
  fun log => (Returns tt, (log ++ [(message, error)])%list).

Notation "x <- m ;; k" := (bind m (fun x => k))
  (at level 100, m at next level, right associativity).
Notation "m ;;; k" := (bind m (fun _ => k))
  (at level 100, right associativity).

Definition STORAGE_KEY : string := "skynotes".

(** [window]: reading [window.localStorage] returns the storage area or
    throws (storage access denied). *)
Record Window := mkWindow {
  localStorage : outcome (gmap string string)
}.

Definition Array_isArray (v : json) : bool :=
  match v with JArray _ => true | _ => false end.

(** The elements of a parsed array, which the function returns as they
    are. *)
Definition elements (v : json) : list json :=
  match v with JArray items => items | _ => [] end.

Section Persistence.
(** The host's codec. *)
Variable JSON_parse : string -> outcome json.
Variable JSON_stringify : json -> string.

(** [window] is [None] where [typeof window === "undefined"]. *)
Definition getInitialNotes (window : option Window) : Eff (list json) :=
  match window with
  | None => ret []
  | Some w =>
      tryCatch
        (storage <- call (localStorage w) ;;
         match storage !! STORAGE_KEY with
         | None => ret []
         | Some raw =>
             if negb (Str.truthy raw) then ret []
             else
               parsed <- call (JSON_parse raw) ;;
               ret (if Array_isArray parsed then elements parsed else [])
         end)
        (fun error => console_warn "Unable to load notes" error ;;; ret [])
  end.

(** The effect on [notes]:
    [window.localStorage.setItem(STORAGE_KEY, JSON.stringify(notes))]. *)
Definition persistNotes (window : option Window) (ns : list Note)
  : outcome (option Window) :=
  match window with
  | None => Returns None
  | Some w =>
      match localStorage w with
      | Throws e => Throws e
      | Returns storage =>
          Returns (Some
            {| localStorage :=
                 Returns (<[STORAGE_KEY := JSON_stringify (notes_to_json ns)]> storage) |})
      end
  end.
End Persistence.

(** ** A JSON codec

    A printer and a parser for the JSON grammar over the code units of the
    model: an instance of the host's codec, used where a statement about
    the codec has to be shown to hold of one. *)
Module Json.

Definition dquote : ascii := ascii_of_nat 34.
Definition backslash : ascii := ascii_of_nat 92.

Definition hexDigit (n : nat) : ascii :=
  if (n <? 10)%nat then ascii_of_nat (48 + n) else ascii_of_nat (87 + n).

(** QuoteJSONString on one code unit. *)
Definition quoteUnit (c : ascii) : string :=
  let n := nat_of_ascii c in
  if (n =? 34)%nat then String backslash (String dquote "")
  else if (n =? 92)%nat then String backslash (String backslash "")
  else if (n =? 8)%nat then String backslash "b"
  else if (n =? 12)%nat then String backslash "f"
  else if (n =? 10)%nat then String backslash "n"
  else if (n =? 13)%nat then String backslash "r"
  else if (n =? 9)%nat then String backslash "t"
  else if (n <? 32)%nat then
    String backslash
      ("u00" ++ String (hexDigit (n / 16)) (String (hexDigit (n mod 16)) ""))
  else String c "".

Fixpoint quoteChars (s : string) : string :=
  match s with
  | EmptyString => EmptyString
  | String c s' => quoteUnit c ++ quoteChars s'
  end.

Definition quote (s : string) : string :=
  String dquote (quoteChars s ++ String dquote "").

Fixpoint join (sep : string) (parts : list string) : string :=
  match parts with
  | [] => ""
  | [part] => part
  | part :: parts' => part ++ sep ++ join sep parts'
  end.

Fixpoint stringify (v : json) : string :=
  match v with
  | JNull => "null"
  | JBool true => "true"
  | JBool false => "false"
  | JNumber literal => literal
  | JString s => quote s
  | JArray items => "[" ++ join "," (map stringify items) ++ "]"
  | JObject members =>
      "{" ++ join "," (map (fun '(key, value) => quote key ++ ":" ++ stringify value) members)
          ++ "}"
  end.

Definition isWs (c : ascii) : bool :=
  let n := nat_of_ascii c in
  ((n =? 32) || (n =? 9) || (n =? 10) || (n =? 13))%nat.

Fixpoint skipWs (s : string) : string :=
  match s with
  | EmptyString => EmptyString
  | String c s' => if isWs c then skipWs s' else s
  end.

Definition hexValue (c : ascii) : option nat :=
  let n := nat_of_ascii c in
  if ((48 <=? n) && (n <=? 57))%nat then Some (n - 48)%nat
  else if ((97 <=? n) && (n <=? 102))%nat then Some (n - 87)%nat
  else if ((65 <=? n) && (n <=? 70))%nat then Some (n - 55)%nat
  else None.

(** The code unit that a one-letter escape stands for. *)
Definition unescape (e : ascii) : option ascii :=
  let k := nat_of_ascii e in
  if ((k =? 34) || (k =? 92) || (k =? 47))%nat then Some e
  else if (k =? 98)%nat then Some (ascii_of_nat 8)
  else if (k =? 102)%nat then Some (ascii_of_nat 12)
  else if (k =? 110)%nat then Some (ascii_of_nat 10)
  else if (k =? 114)%nat then Some (ascii_of_nat 13)
  else if (k =? 116)%nat then Some (ascii_of_nat 9)
  else None.

Definition consChar (c : ascii) (r : option (string * string)) : option (string * string) :=
  match r with
  | Some (t, rest) => Some (String c t, rest)
  | None => None
  end.

(** The characters of a string literal after its opening quote, up to
    and with the closing quote.  An escape [\uXXXX] above U+00FF has no
    code unit in the model and is refused. *)
Fixpoint parseChars (s : string) : option (string * string) :=
  match s with
  | EmptyString => None
  | String c s' =>
      let n := nat_of_ascii c in
      if (n =? 34)%nat then Some (EmptyString, s')
      else if (n =? 92)%nat then
        match s' with
        | EmptyString => None
        | String e s'' =>
            if (nat_of_ascii e =? 117)%nat then
              match s'' with
              | String h1 (String h2 (String h3 (String h4 s4))) =>
                  match hexValue h1, hexValue h2, hexValue h3, hexValue h4 with
                  | Some a, Some b, Some hi, Some lo =>
                      if ((a =? 0) && (b =? 0))%nat
                      then consChar (ascii_of_nat (16 * hi + lo)) (parseChars s4)
                      else None
                  | _, _, _, _ => None
                  end
              | _ => None
              end
            else
              match unescape e with
              | Some c' => consChar c' (parseChars s'')
              | None => None
              end
        end
      else if (n <? 32)%nat then None
      else consChar c (parseChars s')
  end.

Definition isDigit (c : ascii) : bool :=
  let n := nat_of_ascii c in ((48 <=? n) && (n <=? 57))%nat.

(** The longest run of digits at the start, and what follows it. *)
Fixpoint digits (s : string) : string * string :=
  match s with
  | EmptyString => (EmptyString, EmptyString)
  | String c s' =>
      if isDigit c then let (ds, rest) := digits s' in (String c ds, rest)
      else (EmptyString, s)
  end.

Definition parseSign (allowPlus : bool) (s : string) : string * string :=
  match s with
  | String c s' =>
      let n := nat_of_ascii c in
      if ((n =? 45) || (allowPlus && (n =? 43)))%nat then (String c "", s') else ("", s)
  | EmptyString => ("", s)
  end.

Definition parseInt (s : string) : option (string * string) :=
  match s with
  | String c s' =>
      if (nat_of_ascii c =? 48)%nat then Some (String c "", s')
      else if isDigit c then Some (digits s)
      else None
  | EmptyString => None
  end.

Definition parseFrac (s : string) : option (string * string) :=
  match s with
  | String c s' =>
      if (nat_of_ascii c =? 46)%nat then
        match digits s' with
        | (EmptyString, _) => None
        | (ds, rest) => Some (String c ds, rest)
        end
      else Some ("", s)
  | EmptyString => Some ("", s)
  end.

Definition parseExp (s : string) : option (string * string) :=
  match s with
  | String c s' =>
      let n := nat_of_ascii c in
      if ((n =? 101) || (n =? 69))%nat then
        let (sign, s1) := parseSign true s' in
        match digits s1 with
        | (EmptyString, _) => None
        | (ds, rest) => Some (String c (sign ++ ds), rest)
        end
      else Some ("", s)
  | EmptyString => Some ("", s)
  end.

Definition parseNumber (s : string) : option (string * string) :=
  let (sign, s1) := parseSign false s in
  match parseInt s1 with
  | None => None
  | Some (int, s2) =>
      match parseFrac s2 with
      | None => None
      | Some (frac, s3) =>
          match parseExp s3 with
          | None => None
          | Some (exp, s4) => Some (sign ++ int ++ frac ++ exp, s4)
          end
      end
  end.

Fixpoint dropPrefix (word s : string) : option string :=
  match word, s with
  | EmptyString, _ => Some s
  | String a word', String b s' => if Ascii.eqb a b then dropPrefix word' s' else None
  | String _ _, EmptyString => None
  end.

Definition parseWord (word : string) (v : json) (s : string) : option (json * string) :=
  match dropPrefix word s with
  | Some rest => Some (v, rest)
  | None => None
  end.

(** Defining a property: a key already present keeps its place and takes
    the new value. *)
Definition setMember (key : string) (v : json) (members : list (string * json))
  : list (string * json) :=
  if existsb (fun kv => String.eqb (fst kv) key) members
  then map (fun kv => if String.eqb (fst kv) key then (key, v) else kv) members
  else (members ++ [(key, v)])%list.

Definition isCode (c : ascii) (code : nat) : bool := (nat_of_ascii c =? code)%nat.

Fixpoint parseValue (fuel : nat) (s : string) : option (json * string) :=
  match fuel with
  | O => None
  | S fuel' =>
      match skipWs s with
      | EmptyString => None
      | String c rest =>
          if isCode c 123 then
            match skipWs rest with
            | EmptyString => None
            | String c' rest' =>
                if isCode c' 125 then Some (JObject [], rest')
                else parseMembers fuel' [] (String c' rest')
            end
          else if isCode c 91 then
            match skipWs rest with
            | EmptyString => None
            | String c' rest' =>
                if isCode c' 93 then Some (JArray [], rest')
                else parseElements fuel' [] (String c' rest')
            end
          else if isCode c 34 then
            match parseChars rest with
            | Some (t, rest') => Some (JString t, rest')
            | None => None
            end
          else if isCode c 116 then parseWord "true" (JBool true) (String c rest)
          else if isCode c 102 then parseWord "false" (JBool false) (String c rest)
          else if isCode c 110 then parseWord "null" JNull (String c rest)
          else
            match parseNumber (String c rest) with
            | Some (literal, rest') => Some (JNumber literal, rest')
            | None => None
            end
      end
  end
with parseElements (fuel : nat) (acc : list json) (s : string) : option (json * string) :=
  match fuel with
  | O => None
  | S fuel' =>
      match parseValue fuel' s with
      | None => None
      | Some (v, rest) =>
          match skipWs rest with
          | EmptyString => None
          | String c rest' =>
              if isCode c 44 then parseElements fuel' (acc ++ [v])%list rest'
              else if isCode c 93 then Some (JArray (acc ++ [v])%list, rest')
              else None
          end
      end
  end
with parseMembers (fuel : nat) (acc : list (string * json)) (s : string)
  : option (json * string) :=
  match fuel with
  | O => None
  | S fuel' =>
      match skipWs s with
      | EmptyString => None
      | String q rest =>
          if negb (isCode q 34) then None
          else
            match parseChars rest with
            | None => None
            | Some (key, rest1) =>
                match skipWs rest1 with
                | EmptyString => None
                | String colon rest2 =>
                    if negb (isCode colon 58) then None
                    else
                      match parseValue fuel' rest2 with
                      | None => None
                      | Some (v, rest3) =>
                          match skipWs rest3 with
                          | EmptyString => None
                          | String c rest4 =>
                              if isCode c 44 then parseMembers fuel' (setMember key v acc) rest4
                              else if isCode c 125 then Some (JObject (setMember key v acc), rest4)
                              else None
                          end
                      end
                end
            end
      end
  end.

(** [JSON.parse]: one value, with nothing but white space around it.  A
    call of the parser uses up a character of the text at least every
    second time, so twice the length is fuel enough.  Two things of the
    host are not shown: an escape above U+00FF is refused, and the members
    of an object stay in the order of the text, where the host lists
    integer-like keys first.  The text printed for notes has neither. *)
Definition parse (s : string) : outcome json :=
  match parseValue (S (2 * String.length s)) s with
  | Some (v, rest) =>
      match skipWs rest with
      | EmptyString => Returns v
      | String _ _ => Throws "SyntaxError"
      end
  | None => Throws "SyntaxError"
  end.

End Json.

(** ** The page: what it derives, what its controls call, how it mounts *)

(** [notes.find((n) => n.id === activeId) ?? null] *)
Definition activeNote (st : State) : option Note :=
  match activeId st with
  | Some a => List.find (fun n => String.eqb (id n) a) (notes st)
  | None => None
  end.

(** The search box's [onChange]: [setSearchTerm(event.target.value)]. *)
Definition setSearchTerm (value : string) (st : State) : State :=
  {| notes := notes st; searchTerm := value; activeId := activeId st |}.

(** The payloads that the controls pass to [updateNote]. *)
Definition titlePayload (value : string) : Payload :=
  {| p_title := Some value; p_content := None; p_pinned := None; p_color := None |}.

Definition contentPayload (value : string) : Payload :=
  {| p_title := None; p_content := Some value; p_pinned := None; p_color := None |}.

Definition pinnedPayload (value : bool) : Payload :=
  {| p_title := None; p_content := None; p_pinned := Some value; p_color := None |}.

Definition colorPayload (value : string) : Payload :=
  {| p_title := None; p_content := None; p_pinned := None; p_color := Some value |}.

(** What the user can do on the page.  [ClickItem k] and [ClickItemPin k]
    are the [k]-th card of the list and its pin button; the six events
    after them are the controls of the editor panel; [ClickAccent k] is the
    [k]-th swatch of [palettes.map]. *)
Inductive Event :=
| ClickNewNote
| TypeSearch (value : string)
| ClickItem (k : nat)
| ClickItemPin (k : nat)
| TypeTitle (value : string)
| ClickPin
| ClickDuplicate
| ClickDelete
| TypeContent (value : string)
| ClickAccent (k : nat).

(** The handler that each control is wired to.  The list renders one card
    per note of [filteredNotes]; the editor panel is rendered only where
    [activeNote] is not [null].  A control that is not rendered cannot be
    used: the state stays as it is. *)
Definition handle (h : Host) (st : State) (e : Event) : State :=
  let view := filteredNotes (notes st) (searchTerm st) in
  match e with
  | ClickNewNote => createNote h st
  | TypeSearch value => setSearchTerm value st
  | ClickItem k =>
      match view !! k with
      | Some note => selectNote (id note) st
      | None => st
      end
  | ClickItemPin k =>
      match view !! k with
      | Some note => updateNote h (id note) (pinnedPayload (negb (pinned note))) st
      | None => st
      end
  | TypeTitle value =>
      match activeNote st with
      | Some an => updateNote h (id an) (titlePayload value) st
      | None => st
      end
  | ClickPin =>
      match activeNote st with
      | Some an => updateNote h (id an) (pinnedPayload (negb (pinned an))) st
      | None => st
      end
  | ClickDuplicate =>
      match activeNote st with
      | Some an => duplicateNote h (id an) st
      | None => st
      end
  | ClickDelete =>
      match activeNote st with
      | Some an => deleteNote (id an) st
      | None => st
      end
  | TypeContent value =>
      match activeNote st with
      | Some an => updateNote h (id an) (contentPayload value) st
      | None => st
      end
  | ClickAccent k =>
      match activeNote st, palettes !! k with
      | Some an, Some c => updateNote h (id an) (colorPayload c) st
      | _, _ => st
      end
  end.

(** A session: the events in order, each with what the host returns
    during it. *)
Fixpoint handleAll (st : State) (events : list (Host * Event)) : State :=
  match events with
  | [] => st
  | (h, e) :: events' => handleAll (handle h st e) events'
  end.

(** What the mount effect leaves in [activeId]: the initial [null], or the
    argument of [setActiveId], [None] being [undefined]. *)
Inductive selection :=
| Unset
| SetTo (v : option json).

(** [v.id] on a parsed value: reading a property of [null] throws a
    TypeError; an object gives its member or [undefined]; a string, a
    number, a boolean and an array have no property [id]. *)
Definition readId (v : json) : outcome (option json) :=
  match v with
  | JNull => Throws "TypeError"
  | JObject ms => Returns (member "id" ms)
  | _ => Returns None
  end.

(** The effect that runs once on mount:
    [const initial = getInitialNotes(); setNotes(initial);
     if (initial.length) setActiveId(initial[0].id)]. *)
Definition mountEffect (JSON_parse : string -> outcome json) (window : option Window)
  : Eff (list json * selection) :=
  initial <- getInitialNotes JSON_parse window ;;
  match initial with
  | [] => ret (initial, Unset)
  | first :: _ => i <- call (readId first) ;; ret (initial, SetTo i)
  end.

(** The mounted page as a [State], where the array read holds notes and
    the id selected is a string: the search box starts empty. *)
Definition stateOfMount (m : list json * selection) : option State :=
  match asNotes (fst m), snd m with
  | Some ns, Unset => Some {| notes := ns; searchTerm := ""; activeId := None |}
  | Some ns, SetTo (Some (JString a)) =>
      Some {| notes := ns; searchTerm := ""; activeId := Some a |}
  | _, _ => None
  end.

(** ** The view over any code units

    [filteredNotes] above reads strings through the model [Str].  Here the
    same lines of the source are embedded once more with nothing fixed
    about the host: code units are any type with a decidable equality,
    strings are lists of them, and [toLowerCase], [trim] and
    [localeCompare] are parameters, as are the fields that the view reads
    of a note.  What is proved of [filteredNotesBy] holds whatever the
    host's case mapping and collation are. *)
Section HostView.
Context {U T : Type} `{EqDecision U}.
Variables (title content updatedAt : T -> list U) (pinned : T -> bool).
Variables (toLowerCase trim : list U -> list U).
Variable localeCompare : list U -> list U -> Z.

(** [s] starts with [t]. *)
Fixpoint unitsStartWith (s t : list U) {struct t} : bool :=
  match t with
  | [] => true
  | c :: t' =>
      match s with
      | [] => false
      | d :: s' => bool_decide (c = d) && unitsStartWith s' t'
      end
  end.

(** [s.includes(t)] *)
Fixpoint unitsInclude (s t : list U) {struct s} : bool :=
  unitsStartWith s t ||
  match s with
  | [] => false
  | _ :: s' => unitsInclude s' t
  end.

Definition unitsTruthy (s : list U) : bool :=
  match s with [] => false | _ :: _ => true end.

Definition compareNotesBy (a b : T) : Z :=
  let d := Number (pinned b) - Number (pinned a) in
  if d =? 0 then localeCompare (updatedAt b) (updatedAt a) else d.

Definition matchesTermBy (term : list U) (note : T) : bool :=
  unitsInclude (toLowerCase (title note)) term
  || unitsInclude (toLowerCase (content note)) term.

Definition filteredNotesBy (notes : list T) (searchTerm : list U) : list T :=
  if negb (unitsTruthy (trim searchTerm)) then
    sort compareNotesBy notes
  else
    let term := toLowerCase searchTerm in
    sort compareNotesBy (List.filter (matchesTermBy term) notes).

(** Display order, in the host's collation. *)
Definition displayBeforeBy (a b : T) : Prop :=
  (pinned a = true /\ pinned b = false)
  \/ (pinned a = pinned b /\ localeCompare (updatedAt b) (updatedAt a) <= 0).
End HostView.

(** [t] occurs in [s]. *)
Definition occursIn {U : Type} (t s : list U) : Prop :=
  exists pre post : list U, s = (pre ++ t ++ post)%list.

(** [s] contains [term] when case is ignored, for a case mapping that
    works unit by unit: some stretch of [s] is, unit for unit, the term
    after both are lower-cased. *)
Definition containsIgnoringCaseBy {U : Type} (lowerUnit : U -> U) (term s : list U) : Prop :=
  exists pre mid post : list U,
    s = (pre ++ mid ++ post)%list /\ map lowerUnit mid = map lowerUnit term.

(** *** The model [Str] as an instance *)

Definition units (s : string) : list ascii := list_ascii_of_string s.

Definition onUnits (f : string -> string) (l : list ascii) : list ascii :=
  units (f (string_of_list_ascii l)).

Definition compareUnits (a b : list ascii) : Z :=
  Str.localeCompare (string_of_list_ascii a) (string_of_list_ascii b).

Definition latin1View (ns : list Note) (t : string) : list Note :=
  filteredNotesBy (fun n => units (title n)) (fun n => units (content n))
    (fun n => units (updatedAt n)) pinned
    (onUnits Str.toLowerCase) (onUnits Str.trim) compareUnits ns (units t).

(** *** Strings of 16-bit code units

    The host's functions on UTF-16 code units, as far as the file spells
    them out: [trim] with every WhiteSpace and LineTerminator code unit;
    [toLowerCase] on Basic Latin, Latin-1 and the Greek capitals U+0391 to
    U+03AB, with the Final_Sigma rule of the Unicode case conversion (a
    capital sigma after a cased letter and not before one becomes the
    final small sigma U+03C2).  A unit outside these tables is left as it
    is. *)
Module Utf16.

Record Note := mkNote {
  id : list N;
  title : list N;
  content : list N;
  createdAt : list N;
  updatedAt : list N;
  pinned : bool;
  color : list N
}.

Definition between (lo hi c : N) : bool := ((lo <=? c) && (c <=? hi))%N.

Definition isWhiteSpace (c : N) : bool :=
  between 9 13 c || (c =? 32)%N || (c =? 0xA0)%N || (c =? 0x1680)%N
  || between 0x2000 0x200A c || (c =? 0x2028)%N || (c =? 0x2029)%N
  || (c =? 0x202F)%N || (c =? 0x205F)%N || (c =? 0x3000)%N || (c =? 0xFEFF)%N.

Fixpoint trimStart (s : list N) : list N :=
  match s with
  | [] => []
  | c :: s' => if isWhiteSpace c then trimStart s' else s
  end.

Fixpoint trimEnd (s : list N) : list N :=
  match s with
  | [] => []
  | c :: s' =>
      match trimEnd s' with
      | [] => if isWhiteSpace c then [] else [c]
      | t => c :: t
      end
  end.

Definition trim (s : list N) : list N := trimEnd (trimStart s).

Definition isUpper (c : N) : bool :=
  between 0x41 0x5A c
  || (between 0xC0 0xDE c && negb (c =? 0xD7)%N)
  || between 0x391 0x3A1 c || between 0x3A3 0x3AB c.

Definition lowerUnit (c : N) : N := if isUpper c then (c + 32)%N else c.

Definition isCased (c : N) : bool :=
  isUpper c || between 0x61 0x7A c
  || (c =? 0xAA)%N || (c =? 0xB5)%N || (c =? 0xBA)%N
  || (between 0xDF 0xFF c && negb (c =? 0xF7)%N)
  || between 0x3B1 0x3CB c.

Definition isCaseIgnorable (c : N) : bool :=
  (c =? 0x27)%N || (c =? 0x2E)%N || (c =? 0x3A)%N || (c =? 0x5E)%N || (c =? 0x60)%N
  || (c =? 0xA8)%N || (c =? 0xAD)%N || (c =? 0xAF)%N || (c =? 0xB4)%N
  || (c =? 0xB7)%N || (c =? 0xB8)%N || between 0x300 0x36F c.

(** What follows is case-ignorable units and then a cased letter. *)
Fixpoint beforeCased (s : list N) : bool :=
  match s with
  | [] => false
  | c :: s' => if isCaseIgnorable c then beforeCased s' else isCased c
  end.

(** [afterCased]: what comes before is a cased letter and then
    case-ignorable units. *)
Fixpoint lowerFrom (afterCased : bool) (s : list N) : list N :=
  match s with
  | [] => []
  | c :: s' =>
      (if (c =? 0x3A3)%N
       then (if afterCased && negb (beforeCased s') then 0x3C2%N else 0x3C3%N)
       else lowerUnit c)
      :: lowerFrom (if isCaseIgnorable c then afterCased else isCased c) s'
  end.

Definition toLowerCase (s : list N) : list N := lowerFrom false s.

(** The view of the page on such notes, for a collation [localeCompare]. *)
Definition filteredNotes (localeCompare : list N -> list N -> Z)
    (notes : list Note) (searchTerm : list N) : list Note :=
  filteredNotesBy title content updatedAt pinned toLowerCase trim localeCompare
    notes searchTerm.

End Utf16.

(** ** Sample data *)

Definition host1 : Host :=
  {| crypto_randomUUID := Some "4f1c2d3e-0000-4000-8000-000000000001";
     fallbackId := "1714557600000-a1b2c3";
     toISOString := "2024-05-01T10:00:00.000Z";
     Math_random := 3 # 8 |}.

(** A browser without [crypto.randomUUID]. *)
Definition host2 : Host :=
  {| crypto_randomUUID := None;
     fallbackId := "1714557900000-9f8e7d";
     toISOString := "2024-05-01T10:05:00.000Z";
     Math_random := 7 # 8 |}.

Definition groceries : Note :=
  {| id := "n1";
     title := "Groceries";
     content := "Buy MILK and eggs";
     createdAt := "2024-04-01T08:00:00.000Z";
     updatedAt := "2024-04-03T08:00:00.000Z";
     pinned := false;
     color := "from-sky-400/80 via-sky-500/50 to-blue-900/20" |}.

Definition work : Note :=
  {| id := "n2";
     title := "Work";
     content := "Quarterly report";
     createdAt := "2024-04-02T09:00:00.000Z";
     updatedAt := "2024-04-05T09:00:00.000Z";
     pinned := false;
     color := "from-rose-400/80 via-pink-500/40 to-fuchsia-900/20" |}.

Definition ideas : Note :=
  {| id := "n3";
     title := "Ideas";
     content := "";
     createdAt := "2024-03-01T07:00:00.000Z";
     updatedAt := "2024-03-01T07:30:00.000Z";
     pinned := true;
     color := "from-emerald-400/80 via-teal-500/40 to-slate-900/20" |}.

(** Three notes in store order, the first one selected. *)
Definition sampleState : State :=
  {| notes := [groceries; work; ideas]; searchTerm := ""; activeId := Some "n1" |}.

Definition renameWork : Payload :=
  {| p_title := Some "Work log"; p_content := None; p_pinned := None; p_color := None |}.

(** A window whose storage is empty, and one whose storage holds text that
    is not JSON. *)
Definition emptyWindow : Window := {| localStorage := Returns ∅ |}.

Definition brokenStorage : gmap string string := {[ STORAGE_KEY := "{oops" ]}.

Definition brokenWindow : Window := {| localStorage := Returns brokenStorage |}.

(** A session on the empty store: two notes made, the second renamed and
    deleted. *)
Definition sampleSession : list (Host * Event) :=
  [(host1, ClickNewNote); (host2, ClickNewNote); (host1, TypeTitle "Plan");
   (host2, ClickDelete)].

(** A window whose storage holds an array that starts with [null]. *)
Definition nullWindow : Window :=
  {| localStorage := Returns {[ STORAGE_KEY := "[null]" ]} |}.

(** A note titled with the capital letters alpha and sigma (U+0391,
    U+03A3), and the capital sigma as a search term. *)
Definition alphaSigma : Utf16.Note :=
  {| Utf16.id := [0x61%N];
     Utf16.title := [0x391%N; 0x3A3%N];
     Utf16.content := [];
     Utf16.createdAt := [];
     Utf16.updatedAt := [];
     Utf16.pinned := false;
     Utf16.color := [] |}.

Definition capitalSigma : list N := [0x3A3%N].

(** ** Vocabulary of the statements *)

(** [s] contains [term] as a substring when case is ignored: some stretch
    of [s] equals [term] after both are lower-cased. *)
Definition containsIgnoringCase (term s : string) : Prop :=
  exists pre mid post : string,
    s = pre ++ mid ++ post /\ Str.toLowerCase mid = Str.toLowerCase term.

(** Display order: a pinned note before an unpinned one; among notes with
    the same pin flag, the later [updatedAt] first. *)
Definition displayBefore (a b : Note) : Prop :=
  (pinned a = true /\ pinned b = false)
  \/ (pinned a = pinned b /\ Str.localeCompare (updatedAt b) (updatedAt a) <= 0).

(** [v] is read back from its text with [f] units of fuel or more,
    whatever follows the text. *)
Definition parsesBack (f : nat) (v : json) : Prop :=
  forall (g : nat) (rest : string),
    Json.parseValue (f + g) (Json.stringify v ++ rest) = Some (v, rest).

(** The members of an object, folded into the list built so far. *)
Definition setMembers (members acc : list (string * json)) : list (string * json) :=
  foldl (fun acc kv => Json.setMember (fst kv) (snd kv) acc) acc members.

(** A sequence of events: what the host returns at each, and the operation. *)
Fixpoint run (st : State) (trace : list (Host * Action)) : State :=
  match trace with
  | [] => st
  | (h, a) :: trace' => run (step h st a) trace'
  end.

(** The id generator returns an id that the store does not hold.  Only
    [Create] and [Duplicate] call the generator. *)
Definition generatorFresh (h : Host) (st : State) (a : Action) : Prop :=
  match a with
  | Create | Duplicate _ => ~ In (createId h) (ids st)
  | _ => True
  end.

Fixpoint freshTrace (st : State) (trace : list (Host * Action)) : Prop :=
  match trace with
  | [] => True
  | (h, a) :: trace' => generatorFresh h st a /\ freshTrace (step h st a) trace'
  end.

(** The selection is in order: with no note there is no selection, and a
    selected id is the id of a note of the store. *)
Definition selectionOk (st : State) : Prop :=
  match activeId st with
  | None => notes st = []
  | Some a => In a (ids st)
  end.

(** Two payloads as one: a field of the later one where it has it, else
    the field of the earlier one. *)
Definition overlayPayload (later earlier : Payload) : Payload :=
  {| p_title := match p_title later with Some v => Some v | None => p_title earlier end;
     p_content := match p_content later with Some v => Some v | None => p_content earlier end;
     p_pinned := match p_pinned later with Some v => Some v | None => p_pinned earlier end;
     p_color := match p_color later with Some v => Some v | None => p_color earlier end |}.

(** * Properties *)

(** ** The code-unit order behind [localeCompare] *)

Lemma string_compare_refl (s : string) : String.compare s s = Eq.
Proof.
  induction s as [|c s IH]; simpl; [reflexivity|].
  unfold Ascii.compare. now rewrite N.compare_refl.
Qed.

Lemma string_compare_le_trans (a b c : string) :
  String.compare a b <> Gt -> String.compare b c <> Gt -> String.compare a c <> Gt.
Proof.
  revert b c. induction a as [|x a IH]; intros [|y b] [|z c]; simpl; try congruence.
  unfold Ascii.compare.
  destruct (N.compare_spec (N_of_ascii x) (N_of_ascii y)) as [Exy|Lxy|Gxy];
    destruct (N.compare_spec (N_of_ascii y) (N_of_ascii z)) as [Eyz|Lyz|Gyz];
    destruct (N.compare_spec (N_of_ascii x) (N_of_ascii z)) as [Exz|Lxz|Gxz];
    try congruence; try lia.
  apply IH.
Qed.

Lemma localeCompare_refl (s : string) : Str.localeCompare s s = 0.
Proof. unfold Str.localeCompare. now rewrite string_compare_refl. Qed.

Lemma localeCompare_antisym (a b : string) :
  Str.localeCompare a b = - Str.localeCompare b a.
Proof.
  unfold Str.localeCompare. rewrite (String.compare_antisym a b).
  now destruct (String.compare b a).
Qed.

Lemma localeCompare_le_iff (a b : string) :
  Str.localeCompare a b <= 0 <-> String.compare a b <> Gt.
Proof. unfold Str.localeCompare. destruct (String.compare a b); split; (lia || congruence). Qed.

Lemma localeCompare_trans (a b c : string) :
  Str.localeCompare a b <= 0 -> Str.localeCompare b c <= 0 -> Str.localeCompare a c <= 0.
Proof. rewrite !localeCompare_le_iff. apply string_compare_le_trans. Qed.

(** ** The sort *)

Section ArraySortFacts.
Context {A : Type} (compareFn : A -> A -> Z).

Lemma sort_insert_perm (x : A) (l : list A) : Permutation (x :: l) (sort_insert compareFn x l).
Proof.
  induction l as [|y l IH]; simpl; [reflexivity|].
  destruct (compareFn x y <=? 0); [reflexivity|].
  rewrite perm_swap. now apply perm_skip.
Qed.

Lemma sort_perm (l : list A) : Permutation l (sort compareFn l).
Proof.
  induction l as [|x l IH]; simpl; [reflexivity|].
  rewrite <- sort_insert_perm. now apply perm_skip.
Qed.

(** A comparator is consistent when "not after" is total and transitive. *)
Hypothesis compareFn_total : forall x y, 0 < compareFn x y -> compareFn y x <= 0.
Hypothesis compareFn_trans :
  forall x y z, compareFn x y <= 0 -> compareFn y z <= 0 -> compareFn x z <= 0.

Let notAfter (x y : A) : Prop := compareFn x y <= 0.

Lemma sort_insert_sorted (x : A) (l : list A) :
  StronglySorted notAfter l -> StronglySorted notAfter (sort_insert compareFn x l).
Proof.
  induction 1 as [|y l Hl IH Hy]; simpl.
  - repeat constructor.
  - destruct (Z.leb_spec (compareFn x y) 0) as [Hle|Hgt].
    + constructor; [now constructor|].
      constructor; [exact Hle|].
      eapply Forall_impl; [exact Hy|]. intros z Hz. now apply compareFn_trans with y.
    + constructor; [exact IH|].
      rewrite <- sort_insert_perm. constructor; [now apply compareFn_total | exact Hy].
Qed.

Lemma sort_sorted (l : list A) : StronglySorted notAfter (sort compareFn l).
Proof.
  induction l as [|x l IH]; simpl; [constructor|]. now apply sort_insert_sorted.
Qed.
End ArraySortFacts.

Lemma StronglySorted_lookup {A} (R : A -> A -> Prop) (l : list A) (i j : nat) (a b : A) :
  StronglySorted R l -> (i < j)%nat -> l !! i = Some a -> l !! j = Some b -> R a b.
Proof.
  intros Hs. revert i j. induction Hs as [|x l Hl IH Hx]; intros i j Hij Hi Hj.
  - discriminate.
  - destruct j as [|j]; [lia|]. destruct i as [|i]; simpl in *.
    + injection Hi as <-. rewrite Forall_forall in Hx. apply Hx.
      eapply list_elem_of_lookup_2; eauto.
    + apply (IH i j); [lia|assumption..].
Qed.

(** ** Substring search *)

Lemma prefix_spec (t s : string) :
  String.prefix t s = true <-> exists post, s = t ++ post.
Proof.
  revert s. induction t as [|c t IH]; intros s.
  - split; [intros _; now exists s | now destruct s].
  - destruct s as [|d s]; simpl; [split; [discriminate | intros [post H]; discriminate]|].
    destruct (ascii_dec c d) as [->|Hne].
    + rewrite IH. split; intros [post H]; exists post; [now rewrite H | now injection H].
    + split; [discriminate | intros [post H]; injection H as H1 H2; congruence].
Qed.

Lemma includes_spec (s t : string) :
  Str.includes s t = true <-> exists pre post, s = pre ++ t ++ post.
Proof.
  induction s as [|c s IH]; cbn [Str.includes]; rewrite orb_true_iff, prefix_spec.
  - split.
    + intros [[post H]|H]; [now exists "", post | discriminate].
    + intros (pre & post & H). left. destruct pre; [now exists post | discriminate].
  - rewrite IH. split.
    + intros [[post H]|(pre & post & H)]; [now exists "", post|].
      exists (String c pre), post. simpl. now rewrite H.
    + intros (pre & post & H). destruct pre as [|d pre]; [left; now exists post|].
      right. injection H as _ H. now exists pre, post.
Qed.

Lemma toLowerCase_app (a b : string) :
  Str.toLowerCase (a ++ b) = Str.toLowerCase a ++ Str.toLowerCase b.
Proof. induction a as [|c a IH]; simpl; [reflexivity | now rewrite IH]. Qed.

Lemma toLowerCase_split (s u v : string) :
  Str.toLowerCase s = u ++ v ->
  exists a b, s = a ++ b /\ Str.toLowerCase a = u /\ Str.toLowerCase b = v.
Proof.
  revert s. induction u as [|c u IH]; intros s H; simpl in H.
  - now exists "", s.
  - destruct s as [|d s]; [discriminate|]. simpl in H. injection H as Hc H.
    destruct (IH s H) as (a & b & -> & Ha & Hb).
    exists (String d a), b. simpl. now rewrite Hc, Ha.
Qed.

Lemma includes_toLowerCase (term s : string) :
  Str.includes (Str.toLowerCase s) (Str.toLowerCase term) = true
  <-> containsIgnoringCase term s.
Proof.
  rewrite includes_spec. unfold containsIgnoringCase. split.
  - intros (pre' & post' & H).
    apply toLowerCase_split in H as (pre & rest & -> & _ & H).
    apply toLowerCase_split in H as (mid & post & -> & Hmid & _).
    now exists pre, mid, post.
  - intros (pre & mid & post & -> & Hmid).
    exists (Str.toLowerCase pre), (Str.toLowerCase post).
    now rewrite !toLowerCase_app, Hmid.
Qed.

Lemma matchesTerm_spec (searchTerm : string) (note : Note) :
  matchesTerm (Str.toLowerCase searchTerm) note = true
  <-> containsIgnoringCase searchTerm (title note)
      \/ containsIgnoringCase searchTerm (content note).
Proof. unfold matchesTerm. now rewrite orb_true_iff, !includes_toLowerCase. Qed.

(** ** The comparator *)

Lemma compareNotes_displayBefore (a b : Note) :
  compareNotes a b <= 0 <-> displayBefore a b.
Proof.
  unfold compareNotes, displayBefore, Number.
  destruct (pinned a), (pinned b); simpl; split; intros H;
    try lia; try (right; split; [reflexivity | exact H]);
    try (left; split; reflexivity);
    destruct H as [[? ?]|[? H]]; try discriminate; try exact H; lia.
Qed.

Lemma compareNotes_total (a b : Note) : 0 < compareNotes a b -> compareNotes b a <= 0.
Proof.
  unfold compareNotes, Number.
  destruct (pinned a), (pinned b); simpl; try lia;
    rewrite (localeCompare_antisym (updatedAt a) (updatedAt b)); lia.
Qed.

Lemma compareNotes_trans (a b c : Note) :
  compareNotes a b <= 0 -> compareNotes b c <= 0 -> compareNotes a c <= 0.
Proof.
  unfold compareNotes, Number.
  destruct (pinned a), (pinned b), (pinned c); simpl; try lia;
    intros H1 H2; eapply localeCompare_trans; eassumption.
Qed.

Lemma sort_compareNotes_sorted (l : list Note) :
  StronglySorted displayBefore (sort compareNotes l).
Proof.
  pose proof (sort_sorted compareNotes compareNotes_total compareNotes_trans l) as H.
  induction H as [|x xs Hs IH Hx]; constructor; [exact IH|].
  eapply Forall_impl; [exact Hx|]. intros y. apply compareNotes_displayBefore.
Qed.

Lemma trim_truthy (s : string) : Str.truthy (Str.trim s) = true <-> Str.trim s <> "".
Proof. destruct (Str.trim s); simpl; split; congruence. Qed.

(** ** The handlers *)

Lemma lookup_map {A B} (f : A -> B) (l : list A) (i : nat) :
  map f l !! i = option_map f (l !! i).
Proof.
  revert i. induction l as [|x l IH]; intros [|i]; simpl; try reflexivity. apply IH.
Qed.

Lemma palette_index_in_range (h : Host) :
  (0 <= Math_random h)%Q -> (Math_random h < 1)%Q -> 0 <= palette_index h < 4.
Proof.
  intros H0 H1. unfold palette_index. simpl List.length.
  set (x := (Math_random h * inject_Z (Z.of_nat 4))%Q).
  assert (Hx0 : (inject_Z 0 <= x)%Q).
  { unfold x. destruct (Math_random h) as [n d].
    unfold Qle in *. simpl in *. lia. }
  assert (Hx4 : (x < inject_Z 4)%Q).
  { unfold x. destruct (Math_random h) as [n d].
    unfold Qlt in *. simpl in *. lia. }
  split.
  - rewrite <- (Qfloor_Z 0). now apply Qfloor_resp_le.
  - rewrite Zlt_Qlt. eapply Qle_lt_trans; [apply Qfloor_le | exact Hx4].
Qed.

Lemma palette_at_in_range (i : Z) : 0 <= i < 4 -> In (palette_at i) palettes.
Proof.
  intros Hi. unfold palette_at.
  destruct (Z.ltb_spec i 0) as [?|_]; [lia|].
  assert (Hc : i = 0 \/ i = 1 \/ i = 2 \/ i = 3) by lia.
  destruct Hc as [-> | [-> | [-> | ->]]]; simpl; tauto.
Qed.

(** C2, as the code has it.  For every store state, [createNote] puts one
    new note in front of the unchanged list: its title is "Untitled" and
    its content is empty, [createdAt] and [updatedAt] are the current
    timestamp, it is not pinned, its color is one of the palette (the
    random number lies in the unit interval), and it becomes the selected
    note. *)
Theorem createNote_spec (h : Host) (st : State) :
  (0 <= Math_random h)%Q -> (Math_random h < 1)%Q ->
  exists newNote : Note,
    notes (createNote h st) = newNote :: notes st
    /\ id newNote = createId h
    /\ title newNote = "Untitled"
    /\ content newNote = ""
    /\ createdAt newNote = toISOString h
    /\ updatedAt newNote = toISOString h
    /\ pinned newNote = false
    /\ In (color newNote) palettes
    /\ activeId (createNote h st) = Some (id newNote)
    /\ searchTerm (createNote h st) = searchTerm st.
Proof.
  intros H0 H1. eexists. split; [reflexivity|]. simpl.
  repeat (split; [reflexivity|]).
  split; [|split; reflexivity].
  apply palette_at_in_range. now apply palette_index_in_range.
Qed.

Lemma state_eta (st : State) :
  {| notes := notes st; searchTerm := searchTerm st; activeId := activeId st |} = st.
Proof. now destruct st. Qed.

(** C3. [updateNote] keeps the length and the order of the list, the
    selection and the search term.  A note with the given id takes the
    payload's value for each field the payload has, keeps its own value for
    the others, keeps [id] and [createdAt] and gets the current timestamp
    as [updatedAt]; a note with another id is unchanged.  When no note has
    the id, the whole state is unchanged. *)
Theorem updateNote_spec (h : Host) (nid : string) (payload : Payload) (st : State) :
  let st' := updateNote h nid payload st in
  List.length (notes st') = List.length (notes st)
  /\ activeId st' = activeId st
  /\ searchTerm st' = searchTerm st
  /\ (forall (i : nat) (note : Note),
        notes st !! i = Some note ->
        exists note' : Note,
          notes st' !! i = Some note'
          /\ (id note = nid ->
                id note' = id note
                /\ createdAt note' = createdAt note
                /\ updatedAt note' = toISOString h
                /\ title note' = default (title note) (p_title payload)
                /\ content note' = default (content note) (p_content payload)
                /\ pinned note' = default (pinned note) (p_pinned payload)
                /\ color note' = default (color note) (p_color payload))
          /\ (id note <> nid -> note' = note))
  /\ ((forall note, In note (notes st) -> id note <> nid) -> st' = st).
Proof.
  intros st'. unfold st', updateNote. simpl.
  split; [apply length_map|]. split; [reflexivity|]. split; [reflexivity|]. split.
  - intros i note Hi. rewrite lookup_map, Hi. simpl.
    destruct (String.eqb_spec (id note) nid) as [Heq|Hne]; eexists; (split; [reflexivity|]).
    + split; [intros _; repeat split | congruence].
    + split; [congruence | reflexivity].
  - intros Habs. rewrite <- (state_eta st) at 4. f_equal.
    induction (notes st) as [|note l IH]; simpl; [reflexivity|].
    rewrite IH by (intros n Hn; apply Habs; now right).
    destruct (String.eqb_spec (id note) nid) as [Heq|Hne]; [|reflexivity].
    exfalso. apply (Habs note); [now left | exact Heq].
Qed.

(** The notes that [deleteNote] keeps. *)
Lemma deleteNote_notes (nid : string) (st : State) :
  notes (deleteNote nid st) = List.filter (fun note => negb (String.eqb (id note) nid)) (notes st).
Proof. reflexivity. Qed.

Lemma isActive_true (st : State) (nid : string) :
  isActive st nid = true <-> activeId st = Some nid.
Proof.
  unfold isActive. destruct (activeId st) as [a|]; [|split; discriminate].
  destruct (String.eqb_spec a nid); split; congruence.
Qed.

(** C4, as the code has it.  When [deleteNote] removes the selected note,
    the notes that remain are those with another id, in store order, and
    the selection becomes the first of them in store order, or none when
    none remains. *)
Theorem deleteNote_active_spec (nid : string) (st : State) :
  activeId st = Some nid ->
  let st' := deleteNote nid st in
  notes st' = List.filter (fun note => negb (String.eqb (id note) nid)) (notes st)
  /\ activeId st' = option_map id (head (notes st'))
  /\ (forall (pre post : list Note) (first : Note),
        notes st = (pre ++ first :: post)%list ->
        (forall note, In note pre -> id note = nid) ->
        id first <> nid ->
        activeId st' = Some (id first))
  /\ ((forall note, In note (notes st) -> id note = nid) ->
        notes st' = [] /\ activeId st' = None).
Proof.
  intros Hact st'.
  assert (Hhead : activeId st' = option_map id (head (notes st'))).
  { unfold st', deleteNote. simpl. apply isActive_true in Hact. rewrite Hact.
    now destruct (List.filter _ _). }
  split; [reflexivity|]. split; [exact Hhead|]. split.
  - intros pre post first Hsplit Hpre Hfirst. rewrite Hhead.
    unfold st'. rewrite deleteNote_notes, Hsplit, List.filter_app.
    assert (Hnil : List.filter (fun note => negb (String.eqb (id note) nid)) pre = []).
    { clear Hsplit. induction pre as [|p pre IH]; simpl; [reflexivity|].
      rewrite (Hpre p) by now left. rewrite String.eqb_refl. simpl.
      apply IH. intros n Hn. apply Hpre. now right. }
    rewrite Hnil. simpl.
    destruct (String.eqb_spec (id first) nid); [contradiction | reflexivity].
  - intros Hall.
    assert (Hnil : notes st' = []).
    { unfold st'. rewrite deleteNote_notes.
      induction (notes st) as [|p l IH]; simpl; [reflexivity|].
      rewrite (Hall p) by now left. rewrite String.eqb_refl. simpl.
      apply IH. intros n Hn. apply Hall. now right. }
    split; [exact Hnil|]. now rewrite Hhead, Hnil.
Qed.

(** C10. Deleting a note that is not the selected one, present or not,
    leaves the selection as it was; so a deletion that changes the
    selection is a deletion of the selected note. *)
Theorem deleteNote_other_keeps_selection (nid : string) (st : State) :
  activeId st <> Some nid ->
  activeId (deleteNote nid st) = activeId st.
Proof.
  intros Hne. unfold deleteNote. simpl.
  destruct (isActive st nid) eqn:Hact; [|reflexivity].
  apply isActive_true in Hact. contradiction.
Qed.

Lemma find_first (nid : string) (pre post : list Note) (target : Note) :
  (forall note, In note pre -> id note <> nid) ->
  id target = nid ->
  List.find (fun note => String.eqb (id note) nid) (pre ++ target :: post)%list = Some target.
Proof.
  intros Hpre Ht. induction pre as [|p pre IH]; simpl.
  - now rewrite Ht, String.eqb_refl.
  - destruct (String.eqb_spec (id p) nid) as [Heq|_].
    + exfalso. apply (Hpre p); [now left | exact Heq].
    + apply IH. intros n Hn. apply Hpre. now right.
Qed.

Lemma find_absent (nid : string) (l : list Note) :
  (forall note, In note l -> id note <> nid) ->
  List.find (fun note => String.eqb (id note) nid) l = None.
Proof.
  intros Habs. induction l as [|p l IH]; simpl; [reflexivity|].
  destruct (String.eqb_spec (id p) nid) as [Heq|_].
  - exfalso. apply (Habs p); [now left | exact Heq].
  - apply IH. intros n Hn. apply Habs. now right.
Qed.

(** C5. When the store has a note with the given id (the first such note
    in store order is the one copied), [duplicateNote] puts a copy in front
    of the unchanged list: the copy has the generator's id, the current
    timestamp as [createdAt] and [updatedAt], the original's title followed
    by " (Copy)", and the original's content, pin flag and color; the copy
    becomes the selected note.  When no note has the id, the state is
    unchanged. *)
Theorem duplicateNote_spec (h : Host) (nid : string) (st : State) :
  (forall (pre post : list Note) (target : Note),
     notes st = (pre ++ target :: post)%list ->
     (forall note, In note pre -> id note <> nid) ->
     id target = nid ->
     exists copy : Note,
       notes (duplicateNote h nid st) = copy :: notes st
       /\ id copy = createId h
       /\ createdAt copy = toISOString h
       /\ updatedAt copy = toISOString h
       /\ title copy = title target ++ " (Copy)"
       /\ content copy = content target
       /\ pinned copy = pinned target
       /\ color copy = color target
       /\ activeId (duplicateNote h nid st) = Some (id copy)
       /\ searchTerm (duplicateNote h nid st) = searchTerm st)
  /\ ((forall note, In note (notes st) -> id note <> nid) ->
      duplicateNote h nid st = st).
Proof.
  split.
  - intros pre post target Hsplit Hpre Ht.
    assert (Hfind : List.find (fun note => String.eqb (id note) nid) (notes st) = Some target)
      by (rewrite Hsplit; now apply find_first).
    unfold duplicateNote. rewrite Hfind.
    eexists. simpl. repeat split; reflexivity.
  - intros Habs. unfold duplicateNote. now rewrite find_absent.
Qed.

(** C6. When the clock's reading is not before a note's stored [updatedAt],
    the note's [updatedAt] after [updateNote] is not before its previous
    value, whether the note is the one updated or not. *)
Theorem updateNote_updatedAt_monotone
    (h : Host) (nid : string) (payload : Payload) (st : State) (i : nat) (note : Note) :
  notes st !! i = Some note ->
  Str.localeCompare (toISOString h) (updatedAt note) >= 0 ->
  exists note' : Note,
    notes (updateNote h nid payload st) !! i = Some note'
    /\ id note' = id note
    /\ Str.localeCompare (updatedAt note') (updatedAt note) >= 0.
Proof.
  intros Hi Hclock. unfold updateNote. simpl. rewrite lookup_map, Hi. simpl.
  destruct (String.eqb (id note) nid); eexists; (split; [reflexivity|]); simpl.
  - split; [reflexivity | exact Hclock].
  - split; [reflexivity|]. rewrite localeCompare_refl. lia.
Qed.

(** ** Distinct ids *)

Lemma ids_updateNote (h : Host) (nid : string) (payload : Payload) (st : State) :
  ids (updateNote h nid payload st) = ids st.
Proof.
  unfold ids, updateNote. simpl. rewrite List.map_map. apply List.map_ext.
  intros note. now destruct (String.eqb (id note) nid).
Qed.

Lemma NoDup_map_filter {A B} (f : A -> B) (p : A -> bool) (l : list A) :
  List.NoDup (map f l) -> List.NoDup (map f (List.filter p l)).
Proof.
  induction l as [|x l IH]; simpl; intros H; [exact H|].
  inversion H as [|? ? Hx Hl]; subst.
  destruct (p x); simpl; [|now apply IH].
  constructor; [|now apply IH].
  intros Hin. apply Hx. apply in_map_iff in Hin as (y & Hy & Hin).
  apply in_map_iff. exists y. split; [exact Hy|]. now apply filter_In in Hin.
Qed.

Lemma step_ids_distinct (h : Host) (st : State) (a : Action) :
  List.NoDup (ids st) -> generatorFresh h st a -> List.NoDup (ids (step h st a)).
Proof.
  intros Hnd Hfresh. destruct a as [|nid payload|nid|nid|nid]; simpl in *.
  - unfold ids. simpl. now constructor.
  - now rewrite ids_updateNote.
  - unfold duplicateNote. destruct (List.find _ _); [|exact Hnd].
    unfold ids. simpl. now constructor.
  - unfold ids. rewrite deleteNote_notes. now apply NoDup_map_filter.
  - exact Hnd.
Qed.

Lemma run_ids_distinct (trace : list (Host * Action)) (st : State) :
  List.NoDup (ids st) -> freshTrace st trace -> List.NoDup (ids (run st trace)).
Proof.
  revert st. induction trace as [|[h a] trace IH]; intros st Hnd Hfresh; simpl in *.
  - exact Hnd.
  - destruct Hfresh as [Hh Hrest]. apply IH; [now apply step_ids_distinct | exact Hrest].
Qed.

Lemma createMany_run (hs : list Host) :
  createMany hs = run emptyState (map (fun h => (h, Create)) hs).
Proof.
  unfold createMany. generalize emptyState.
  induction hs as [|h hs IH]; intros st; simpl; [reflexivity | apply IH].
Qed.

Lemma run_creates_length (hs : list Host) (st : State) :
  List.length (notes (run st (map (fun h => (h, Create)) hs)))
  = (List.length hs + List.length (notes st))%nat.
Proof.
  revert st. induction hs as [|h hs IH]; intros st; simpl; [reflexivity|].
  rewrite IH. simpl. lia.
Qed.

(** C7. Pairwise-distinct ids are an invariant of the store.  When the id
    generator returns an id that the store does not hold, each of create,
    update, duplicate, delete and select takes a store with distinct ids to
    a store with distinct ids; so every sequence of operations from the
    empty store keeps the ids distinct, and creating N notes from the empty
    store gives N entries with N distinct ids. *)
Theorem ids_stay_distinct :
  (forall (h : Host) (st : State) (a : Action),
     List.NoDup (ids st) -> generatorFresh h st a -> List.NoDup (ids (step h st a)))
  /\ (forall trace : list (Host * Action),
        freshTrace emptyState trace -> List.NoDup (ids (run emptyState trace)))
  /\ (forall hs : list Host,
        freshTrace emptyState (map (fun h => (h, Create)) hs) ->
        List.length (notes (createMany hs)) = List.length hs
        /\ List.length (ids (createMany hs)) = List.length hs
        /\ List.NoDup (ids (createMany hs))).
Proof.
  split; [exact step_ids_distinct|]. split.
  - intros trace Hfresh. apply run_ids_distinct; [constructor | exact Hfresh].
  - intros hs Hfresh. rewrite createMany_run.
    assert (Hlen : List.length (notes (run emptyState (map (fun h => (h, Create)) hs)))
                   = List.length hs).
    { rewrite run_creates_length. simpl. lia. }
    split; [exact Hlen|]. split.
    + unfold ids. now rewrite length_map.
    + apply run_ids_distinct; [constructor | exact Hfresh].
Qed.

(** ** Persistence *)

Lemma note_of_json_to_json (note : Note) : note_of_json (note_to_json note) = Some note.
Proof. now destruct note. Qed.

Lemma asNotes_to_json (ns : list Note) : asNotes (map note_to_json ns) = Some ns.
Proof.
  induction ns as [|note ns IH]; [reflexivity|].
  cbn [map asNotes]. now rewrite note_of_json_to_json, IH.
Qed.

Lemma truthy_false (s : string) : Str.truthy s = false <-> s = "".
Proof. destruct s; simpl; split; congruence. Qed.

Section PersistenceFacts.
Variable JSON_parse : string -> outcome json.
Variable JSON_stringify : json -> string.

(** What [getInitialNotes] returns.  Whatever the storage holds, the
    function returns: no exception leaves it, and the only trace of a
    failure is a console warning.  It returns the empty list when the key
    is absent, when its value is the empty string, when the value is not
    valid JSON ([JSON.parse] throws), when it parses to something that is
    not an array, and also where there is no [window] or the storage cannot
    be read; when the value parses to an array it returns that array. *)
Lemma getInitialNotes_spec (window : option Window) (log : Console) :
  exists (loaded : list json) (log' : Console),
    getInitialNotes JSON_parse window log = (Returns loaded, log')
    /\ (window = None -> loaded = [] /\ log' = log)
    /\ (forall w error,
          window = Some w -> localStorage w = Throws error ->
          loaded = [] /\ log' = (log ++ [("Unable to load notes", error)])%list)
    /\ (forall w storage,
          window = Some w -> localStorage w = Returns storage ->
          let raw := storage !! STORAGE_KEY in
          (raw = None -> loaded = [] /\ log' = log)
          /\ (raw = Some "" -> loaded = [] /\ log' = log)
          /\ (forall text error,
                raw = Some text -> text <> "" -> JSON_parse text = Throws error ->
                loaded = [] /\ log' = (log ++ [("Unable to load notes", error)])%list)
          /\ (forall text v,
                raw = Some text -> text <> "" -> JSON_parse text = Returns v ->
                Array_isArray v = false ->
                loaded = [] /\ log' = log)
          /\ (forall text items,
                raw = Some text -> text <> "" -> JSON_parse text = Returns (JArray items) ->
                loaded = items /\ log' = log)).
Proof.
  destruct window as [w|].
  2:{ exists [], log. split; [reflexivity|]. split; [tauto|]. split; intros; discriminate. }
  unfold getInitialNotes, tryCatch, bind, call, ret, console_warn.
  destruct (localStorage w) as [storage|e] eqn:Hls.
  2:{ eexists _, _. split; [reflexivity|]. split; [discriminate|]. split.
      - intros w0 error [= <-] Hw. rewrite Hls in Hw. injection Hw as <-. now split.
      - intros w0 storage0 [= <-] Hw. congruence. }
  assert (Hthrows : forall (P : Prop) w0 (error : string),
             Some w = Some w0 -> localStorage w0 = Throws error -> P)
    by (intros P w0 error [= <-] Hw; congruence).
  destruct (storage !! STORAGE_KEY) as [text|] eqn:Hraw.
  2:{ eexists _, _. split; [reflexivity|]. split; [discriminate|].
      split; [intros w0 error; apply Hthrows|].
      intros w0 storage0 [= <-] Hw. rewrite Hls in Hw. injection Hw as <-.
      rewrite Hraw. cbv zeta.
      repeat split; intros; try discriminate; reflexivity. }
  destruct (Str.truthy text) eqn:Htruthy; simpl.
  2:{ apply truthy_false in Htruthy. subst text.
      eexists _, _. split; [reflexivity|]. split; [discriminate|].
      split; [intros w0 error; apply Hthrows|].
      intros w0 storage0 [= <-] Hw. rewrite Hls in Hw. injection Hw as <-.
      rewrite Hraw. cbv zeta.
      split; [discriminate|]. split; [now split|].
      repeat split; intros; congruence. }
  destruct (JSON_parse text) as [v|e] eqn:Hparse.
  - eexists _, _. split; [reflexivity|]. split; [discriminate|].
    split; [intros w0 error; apply Hthrows|].
    intros w0 storage0 [= <-] Hw. rewrite Hls in Hw. injection Hw as <-.
    rewrite Hraw. cbv zeta.
    split; [discriminate|]. split; [intros [= ->]; discriminate|].
    split; [intros t e [= <-] _ He; congruence|]. split.
    + intros t v' [= <-] _ Hv Harr. rewrite Hparse in Hv. injection Hv as <-.
      now rewrite Harr.
    + intros t items [= <-] _ Hv. rewrite Hparse in Hv. injection Hv as ->.
      now split.
  - eexists _, _. split; [reflexivity|]. split; [discriminate|].
    split; [intros w0 error; apply Hthrows|].
    intros w0 storage0 [= <-] Hw. rewrite Hls in Hw. injection Hw as <-.
    rewrite Hraw. cbv zeta.
    split; [discriminate|]. split; [intros [= ->]; discriminate|].
    split; [intros t e' [= <-] _ He; rewrite Hparse in He; injection He as <-; now split|].
    split; intros t ? [= <-] _ Hv; congruence.
Qed.

(** What the theorems about a round trip assume of the host's codec:
    parsing the text printed for a note list gives that list back, and
    the empty text is not JSON. *)
Hypothesis parse_stringify :
  forall ns : list Note,
    JSON_parse (JSON_stringify (notes_to_json ns)) = Returns (notes_to_json ns).
Hypothesis parse_empty : forall v : json, JSON_parse "" <> Returns v.

Lemma stringify_truthy (ns : list Note) :
  Str.truthy (JSON_stringify (notes_to_json ns)) = true.
Proof.
  destruct (Str.truthy _) eqn:Ht; [reflexivity|].
  apply truthy_false in Ht. pose proof (parse_stringify ns) as Hp.
  rewrite Ht in Hp. now apply parse_empty in Hp.
Qed.

(** With such a codec, what [getInitialNotes] reads after [persistNotes]
    is the list written. *)
Lemma persist_then_load
    (w : Window) (storage : gmap string string) (ns : list Note) (log : Console) :
  localStorage w = Returns storage ->
  exists (w' : Window) (loaded : list json),
    persistNotes JSON_stringify (Some w) ns = Returns (Some w')
    /\ getInitialNotes JSON_parse (Some w') log = (Returns loaded, log)
    /\ loaded = map note_to_json ns
    /\ asNotes loaded = Some ns.
Proof.
  intros Hls. unfold persistNotes. rewrite Hls.
  eexists _, (map note_to_json ns). split; [reflexivity|].
  split; [|split; [reflexivity | apply asNotes_to_json]].
  unfold getInitialNotes, tryCatch, bind, call, ret. simpl.
  rewrite lookup_insert_eq, stringify_truthy. simpl.
  now rewrite parse_stringify.
Qed.
End PersistenceFacts.

(** ** The codec of [Json] reads back what it prints for a note list *)

Lemma string_app_cons (x : ascii) (a b : string) : String x a ++ b = String x (a ++ b).
Proof. reflexivity. Qed.

Lemma string_app_assoc (a b c : string) : (a ++ b) ++ c = a ++ (b ++ c).
Proof.
  induction a as [|x a IH]; [reflexivity|]. now rewrite !string_app_cons, IH.
Qed.

Lemma string_length_app (a b : string) :
  String.length (a ++ b) = (String.length a + String.length b)%nat.
Proof.
  induction a as [|x a IH]; [reflexivity|]. rewrite string_app_cons. simpl. now rewrite IH.
Qed.

Lemma parseChars_quoteUnit (c : ascii) (more : string) :
  Json.parseChars (Json.quoteUnit c ++ more) = Json.consChar c (Json.parseChars more).
Proof. destruct c as [[] [] [] [] [] [] [] []]; reflexivity. Qed.

Lemma parseChars_quoteChars (s rest : string) :
  Json.parseChars (Json.quoteChars s ++ String Json.dquote rest) = Some (s, rest).
Proof.
  induction s as [|c s IH]; [reflexivity|].
  cbn [Json.quoteChars]. now rewrite string_app_assoc, parseChars_quoteUnit, IH.
Qed.

Lemma quote_app (s rest : string) :
  Json.quote s ++ rest = String Json.dquote (Json.quoteChars s ++ String Json.dquote rest).
Proof. unfold Json.quote. now rewrite string_app_cons, string_app_assoc. Qed.

Lemma parsesBack_string (s : string) : parsesBack 1 (JString s).
Proof.
  intros g rest. cbn [Json.stringify]. rewrite quote_app.
  change (1 + g)%nat with (S g). cbn [Json.parseValue].
  change (Json.skipWs (String Json.dquote ?x)) with (String Json.dquote x).
  cbn -[Json.parseChars]. now rewrite parseChars_quoteChars.
Qed.

Lemma parsesBack_bool (b : bool) : parsesBack 1 (JBool b).
Proof. intros g rest. now destruct b. Qed.

Lemma join_cons2 (sep p q : string) (ps : list string) :
  Json.join sep (p :: q :: ps) = p ++ sep ++ Json.join sep (q :: ps).
Proof. reflexivity. Qed.

(** One member, read by the loop of [parseMembers]: what follows it is a
    comma and more members, or the closing brace. *)
Lemma parseMembers_step (f g : nat) (acc : list (string * json))
    (key : string) (v : json) (c : ascii) (rest : string) :
  parsesBack f v ->
  Json.isWs c = false ->
  Json.parseMembers (S (f + g)) acc
    (Json.quote key ++ ":" ++ Json.stringify v ++ String c rest)
  = if Json.isCode c 44 then Json.parseMembers (f + g) (Json.setMember key v acc) rest
    else if Json.isCode c 125 then Some (JObject (Json.setMember key v acc), rest)
    else None.
Proof.
  intros Hv Hc. rewrite quote_app. cbn [Json.parseMembers].
  change (Json.skipWs (String Json.dquote ?x)) with (String Json.dquote x).
  change (negb (Json.isCode Json.dquote 34)) with false. cbv iota.
  rewrite parseChars_quoteChars.
  change (":" ++ ?x) with (String ":" x).
  change (Json.skipWs (String ":" ?x)) with (String ":" x).
  change (negb (Json.isCode ":" 58)) with false. cbv iota.
  rewrite Hv. cbn [Json.skipWs]. now rewrite Hc.
Qed.

Lemma parseMembers_join (f : nat) (members : list (string * json)) :
  members <> [] ->
  Forall (fun kv => parsesBack f (snd kv)) members ->
  forall (g : nat) (acc : list (string * json)) (rest : string),
    Json.parseMembers (List.length members + f + g) acc
      (Json.join "," (map (fun '(key, value) => Json.quote key ++ ":" ++ Json.stringify value)
                          members) ++ String "}" rest)
    = Some (JObject (setMembers members acc), rest).
Proof.
  induction members as [|[key v] members IH]; [congruence|].
  intros _ Hall g acc rest. inversion Hall as [|? ? Hv Hrest]; subst. simpl in Hv.
  destruct members as [|kv members].
  - cbn [map Json.join List.length]. rewrite !string_app_assoc.
    change (1 + f + g)%nat with (S (f + g)).
    now rewrite parseMembers_step.
  - cbn [map]. rewrite join_cons2. cbn [List.length]. rewrite !string_app_assoc.
    change ("," ++ ?x) with (String "," x).
    change (S (S (List.length members)) + f + g)%nat
      with (S (S (List.length members) + f + g))%nat.
    replace (S (List.length members) + f + g)%nat
      with (f + (S (List.length members) + g))%nat by lia.
    rewrite parseMembers_step by (exact Hv || reflexivity).
    change (Json.isCode "," 44) with true. cbv iota.
    replace (f + (S (List.length members) + g))%nat
      with (List.length (kv :: members) + f + g)%nat by (simpl; lia).
    change (map _ (kv :: members)) with
      (map (fun '(key, value) => Json.quote key ++ ":" ++ Json.stringify value) (kv :: members)).
    rewrite (IH ltac:(congruence) Hrest). reflexivity.
Qed.

Lemma members_text_head (key : string) (v : json) (members : list (string * json))
    (tail : string) :
  exists t : string,
    Json.join "," (map (fun '(key, value) => Json.quote key ++ ":" ++ Json.stringify value)
                       ((key, v) :: members)) ++ tail
    = String Json.dquote t.
Proof.
  destruct members as [|kv members]; cbn [map].
  - cbn [Json.join]. rewrite string_app_assoc, quote_app. eauto.
  - rewrite join_cons2, !string_app_assoc, quote_app. eauto.
Qed.

Lemma parseValue_object (fuel : nat) (members : list (string * json)) (rest : string) :
  members <> [] ->
  Json.parseValue (S fuel) (Json.stringify (JObject members) ++ rest)
  = Json.parseMembers fuel []
      (Json.join "," (map (fun '(key, value) => Json.quote key ++ ":" ++ Json.stringify value)
                          members) ++ String "}" rest).
Proof.
  intros Hne. destruct members as [|[key v] members]; [congruence|].
  cbn [Json.stringify]. rewrite !string_app_assoc.
  change ("{" ++ ?x) with (String "{" x). change ("}" ++ rest) with (String "}" rest).
  destruct (members_text_head key v members (String "}" rest)) as [t Ht].
  rewrite Ht. reflexivity.
Qed.

Lemma parsesBack_note (note : Note) : parsesBack 9 (note_to_json note).
Proof.
  intros g rest. change (9 + g)%nat with (S (8 + g)). unfold note_to_json.
  match goal with
  | |- Json.parseValue _ (Json.stringify (JObject ?ms) ++ _) = _ =>
      assert (Hms : Forall (fun kv => parsesBack 1 (snd kv)) ms)
        by (repeat constructor; simpl; (apply parsesBack_string || apply parsesBack_bool));
      rewrite parseValue_object by discriminate;
      exact (parseMembers_join 1 ms ltac:(discriminate) Hms g [] rest)
  end.
Qed.

Lemma parseElements_join (f : nat) (items : list json) :
  items <> [] ->
  Forall (parsesBack f) items ->
  forall (g : nat) (acc : list json) (rest : string),
    Json.parseElements (List.length items + f + g) acc
      (Json.join "," (map Json.stringify items) ++ String "]" rest)
    = Some (JArray (acc ++ items)%list, rest).
Proof.
  induction items as [|v items IH]; [congruence|].
  intros _ Hall g acc rest. inversion Hall as [|? ? Hv Hrest]; subst.
  destruct items as [|v' items].
  - cbn [map Json.join List.length]. change (1 + f + g)%nat with (S (f + g)).
    cbn [Json.parseElements]. rewrite Hv. reflexivity.
  - cbn [map]. rewrite join_cons2. cbn [List.length]. rewrite !string_app_assoc.
    change ("," ++ ?x) with (String "," x).
    change (S (S (List.length items)) + f + g)%nat
      with (S (S (List.length items) + f + g))%nat.
    cbn [Json.parseElements].
    replace (S (List.length items) + f + g)%nat
      with (f + (S (List.length items) + g))%nat by lia.
    rewrite Hv.
    change (Json.skipWs (String "," ?x)) with (String "," x).
    change (Json.isCode "," 44) with true. cbv iota.
    replace (f + (S (List.length items) + g))%nat
      with (List.length (v' :: items) + f + g)%nat by (simpl; lia).
    change (Json.stringify v' :: map Json.stringify items)
      with (map Json.stringify (v' :: items)).
    rewrite (IH ltac:(congruence) Hrest). now rewrite <- app_assoc.
Qed.

Lemma note_text_head (note : Note) :
  exists t : string, Json.stringify (note_to_json note) = String "{" t.
Proof. eexists. reflexivity. Qed.

Lemma parsesBack_notes (ns : list Note) :
  parsesBack (List.length ns + 10) (notes_to_json ns).
Proof.
  intros g rest. destruct ns as [|note ns]; [reflexivity|].
  unfold notes_to_json. cbn [Json.stringify]. rewrite !string_app_assoc.
  change ("[" ++ ?x) with (String "[" x). change ("]" ++ rest) with (String "]" rest).
  replace (List.length (note :: ns) + 10 + g)%nat
    with (S (List.length (map note_to_json (note :: ns)) + 9 + g))%nat
    by (rewrite length_map; lia).
  assert (Hhead : exists t,
             Json.join "," (map Json.stringify (map note_to_json (note :: ns)))
               ++ String "]" rest = String "{" t).
  { destruct (note_text_head note) as [t Ht]. cbn [map].
    destruct ns as [|n' ns].
    - cbn [map Json.join]. rewrite Ht. eauto.
    - cbn [map]. rewrite join_cons2, Ht. eauto. }
  destruct Hhead as [t Ht].
  cbn [Json.parseValue]. rewrite Ht.
  change (Json.skipWs (String "[" ?x)) with (String "[" x). cbv iota.
  change (Json.isCode "[" 123) with false. change (Json.isCode "[" 91) with true. cbv iota.
  change (Json.skipWs (String "{" t)) with (String "{" t). cbv iota.
  change (Json.isCode "{" 93) with false. cbv iota.
  rewrite <- Ht.
  rewrite parseElements_join; [reflexivity | discriminate |].
  apply Forall_forall. intros v Hv. apply list_elem_of_In, in_map_iff in Hv as (n & <- & _).
  apply parsesBack_note.
Qed.

Lemma string_app_empty (s : string) : s ++ "" = s.
Proof. induction s as [|c s IH]; [reflexivity|]. now rewrite string_app_cons, IH. Qed.

Lemma note_text_length (note : Note) :
  (4 <= String.length (Json.stringify (note_to_json note)))%nat.
Proof.
  assert (H : exists t : string,
             Json.stringify (note_to_json note)
             = String "{" (String Json.dquote (String "i" (String "d" t))))
    by (eexists; reflexivity).
  destruct H as [t ->]. simpl. lia.
Qed.

Lemma notes_join_length (ns : list Note) :
  (4 * List.length ns
   <= String.length (Json.join "," (map Json.stringify (map note_to_json ns))))%nat.
Proof.
  induction ns as [|note ns IH]; [simpl; lia|].
  pose proof (note_text_length note) as Hn.
  destruct ns as [|n' ns]; cbn [map].
  - cbn [Json.join List.length]. lia.
  - rewrite join_cons2, !string_length_app. cbn [map List.length] in *.
    change (String.length ",") with 1%nat. lia.
Qed.

Lemma json_parse_stringify (ns : list Note) :
  Json.parse (Json.stringify (notes_to_json ns)) = Returns (notes_to_json ns).
Proof.
  destruct ns as [|note ns]; [reflexivity|].
  set (l := note :: ns). unfold Json.parse.
  set (text := Json.stringify (notes_to_json l)).
  assert (Hfuel : (List.length l + 10 <= S (2 * String.length text))%nat).
  { unfold text, notes_to_json. cbn [Json.stringify].
    rewrite !string_length_app. pose proof (notes_join_length l) as Hj.
    change (String.length "[") with 1%nat. change (String.length "]") with 1%nat.
    assert (1 <= List.length l)%nat by (unfold l; simpl; lia). lia. }
  pose proof (parsesBack_notes l (S (2 * String.length text) - (List.length l + 10))%nat "")
    as H.
  fold text in H. rewrite string_app_empty in H.
  replace (List.length l + 10 + (S (2 * String.length text) - (List.length l + 10)))%nat
    with (S (2 * String.length text))%nat in H by lia.
  now rewrite H.
Qed.

Lemma json_parse_empty (v : json) : Json.parse "" <> Returns v.
Proof. discriminate. Qed.

(** C9. Round trip through the storage: for every note list, the text that
    [persistNotes] writes ([JSON.stringify]) is read back by
    [getInitialNotes] ([JSON.parse]) as an array that holds, in the same
    order, one object per note with the same value in each of the seven
    fields; read as notes it is the original list, and nothing is logged. *)
Theorem notes_round_trip
    (w : Window) (storage : gmap string string) (ns : list Note) (log : Console) :
  localStorage w = Returns storage ->
  exists (w' : Window) (loaded : list json),
    persistNotes Json.stringify (Some w) ns = Returns (Some w')
    /\ getInitialNotes Json.parse (Some w') log = (Returns loaded, log)
    /\ loaded = map note_to_json ns
    /\ asNotes loaded = Some ns.
Proof.
  apply (persist_then_load Json.parse Json.stringify json_parse_stringify json_parse_empty).
Qed.

(** * The statements at the sample data *)

(** The view of the sample store: the pinned note first, then the later
    [updatedAt] first. *)
Example view_sample_order :
  map id (filteredNotes (notes sampleState) "") = ["n3"; "n2"; "n1"].
Proof. reflexivity. Qed.

Example view_sample_search :
  map id (filteredNotes (notes sampleState) "RePoRt") = ["n2"].
Proof. reflexivity. Qed.

(** A term of white space only is no term. *)
Example view_sample_blank :
  filteredNotes (notes sampleState) "   " = filteredNotes (notes sampleState) "".
Proof. reflexivity. Qed.

(** The term is not trimmed before the search. *)
Example view_sample_untrimmed :
  map id (filteredNotes (notes sampleState) "report ") = [].
Proof. reflexivity. Qed.

Example createMany_sample_ids :
  ids (createMany [host1; host2])
  = ["1714557900000-9f8e7d"; "4f1c2d3e-0000-4000-8000-000000000001"].
Proof. reflexivity. Qed.

Example createNote_sample_color :
  option_map color (head (notes (createNote host2 emptyState)))
  = Some "from-emerald-400/80 via-teal-500/40 to-slate-900/20".
Proof. reflexivity. Qed.

Example codec_sample :
  Json.parse (Json.stringify (notes_to_json (notes sampleState)))
  = Returns (notes_to_json (notes sampleState)).
Proof. vm_compute. reflexivity. Qed.

Example codec_empty_store : Json.stringify (notes_to_json []) = "[]".
Proof. reflexivity. Qed.

Example codec_not_an_array : Json.parse " 42 " = Returns (JNumber "42").
Proof. reflexivity. Qed.

Example codec_trailing_comma : Json.parse "[true,]" = Throws "SyntaxError".
Proof. reflexivity. Qed.

(** The claim of C2 fails on the title: the note that [createNote] adds to
    the empty store is titled "Untitled". *)
Lemma createNote_title_counterexample :
  exists newNote : Note,
    notes (createNote host1 emptyState) = [newNote]
    /\ title newNote = "Untitled"
    /\ title newNote <> "".
Proof. eexists. split; [reflexivity|]. split; [reflexivity | discriminate]. Qed.

Lemma createNote_spec_witness :
  exists newNote : Note,
    notes (createNote host1 sampleState) = newNote :: notes sampleState
    /\ title newNote = "Untitled"
    /\ content newNote = ""
    /\ pinned newNote = false
    /\ In (color newNote) palettes
    /\ activeId (createNote host1 sampleState) = Some (id newNote).
Proof.
  destruct (createNote_spec host1 sampleState) as (n & H1 & _ & H2 & H3 & _ & _ & H4 & H5 & H6 & _).
  - unfold Qle. simpl. lia.
  - unfold Qlt. simpl. lia.
  - exists n. tauto.
Defined.

Lemma updateNote_spec_witness :
  exists note' : Note,
    notes (updateNote host1 "n2" renameWork sampleState) !! 1%nat = Some note'
    /\ title note' = "Work log"
    /\ content note' = content work
    /\ createdAt note' = createdAt work
    /\ updatedAt note' = toISOString host1.
Proof.
  destruct (updateNote_spec host1 "n2" renameWork sampleState) as (_ & _ & _ & H & _).
  destruct (H 1%nat work eq_refl) as (note' & Hlook & Hsame & _).
  destruct (Hsame eq_refl) as (_ & Hc & Hu & Ht & Hco & _).
  exists note'. tauto.
Defined.

(** The claim of C4 fails where display order and store order differ:
    after the selected note is deleted, the note selected is the first in
    store order, while the pinned note is the first in display order. *)
Lemma deleteNote_display_counterexample :
  activeId sampleState = Some "n1"
  /\ activeId (deleteNote "n1" sampleState) = Some "n2"
  /\ option_map id
       (head (filteredNotes (notes (deleteNote "n1" sampleState))
                            (searchTerm (deleteNote "n1" sampleState))))
     = Some "n3"
  /\ activeId (deleteNote "n1" sampleState)
     <> option_map id
          (head (filteredNotes (notes (deleteNote "n1" sampleState))
                               (searchTerm (deleteNote "n1" sampleState)))).
Proof. repeat split. discriminate. Qed.

Lemma deleteNote_active_spec_witness :
  notes (deleteNote "n1" sampleState) = [work; ideas]
  /\ activeId (deleteNote "n1" sampleState) = Some (id work).
Proof.
  destruct (deleteNote_active_spec "n1" sampleState eq_refl) as (Hn & _ & Hfirst & _).
  split; [exact Hn|].
  apply (Hfirst [groceries] [ideas] work); [reflexivity | | discriminate].
  intros note [<-|[]]. reflexivity.
Defined.

Lemma duplicateNote_spec_witness :
  exists copy : Note,
    notes (duplicateNote host2 "n2" sampleState) = copy :: notes sampleState
    /\ id copy = "1714557900000-9f8e7d"
    /\ title copy = "Work (Copy)"
    /\ content copy = content work
    /\ activeId (duplicateNote host2 "n2" sampleState) = Some (id copy).
Proof.
  destruct (duplicateNote_spec host2 "n2" sampleState) as [H _].
  destruct (H [groceries] [ideas] work eq_refl) as (copy & H1 & H2 & _ & _ & H3 & H4 & _ & _ & H5 & _).
  - intros note [<-|[]]. discriminate.
  - reflexivity.
  - exists copy. tauto.
Defined.

Lemma updateNote_updatedAt_monotone_witness :
  exists note' : Note,
    notes (updateNote host1 "n2" renameWork sampleState) !! 1%nat = Some note'
    /\ id note' = id work
    /\ Str.localeCompare (updatedAt note') (updatedAt work) >= 0.
Proof.
  apply (updateNote_updatedAt_monotone host1 "n2" renameWork sampleState 1 work).
  - reflexivity.
  - vm_compute. discriminate.
Defined.

Lemma ids_stay_distinct_witness :
  List.length (notes (createMany [host1; host2])) = 2%nat
  /\ List.NoDup (ids (createMany [host1; host2])).
Proof.
  destruct ids_stay_distinct as (_ & _ & H).
  destruct (H [host1; host2]) as (Hlen & _ & Hnd).
  - simpl. repeat split; [tauto|]. intros [Heq|[]]. discriminate.
  - split; assumption.
Defined.

Lemma notes_round_trip_witness :
  exists (w' : Window) (loaded : list json),
    persistNotes Json.stringify (Some emptyWindow) (notes sampleState) = Returns (Some w')
    /\ getInitialNotes Json.parse (Some w') [] = (Returns loaded, [])
    /\ loaded = map note_to_json (notes sampleState)
    /\ asNotes loaded = Some (notes sampleState).
Proof. apply (notes_round_trip emptyWindow ∅). reflexivity. Defined.

Lemma deleteNote_other_keeps_selection_witness :
  activeId (deleteNote "n2" sampleState) = Some "n1"
  /\ activeId (deleteNote "absent" sampleState) = Some "n1".
Proof.
  split.
  - apply (deleteNote_other_keeps_selection "n2" sampleState). discriminate.
  - apply (deleteNote_other_keeps_selection "absent" sampleState). discriminate.
Defined.

(** * Further properties of the page *)

(** ** Searching and sorting *)

Section ArraySortFilter.
Context {A : Type} (compareFn : A -> A -> Z).
Hypothesis compareFn_total : forall x y, 0 < compareFn x y -> compareFn y x <= 0.
Hypothesis compareFn_trans :
  forall x y z, compareFn x y <= 0 -> compareFn y z <= 0 -> compareFn x z <= 0.

Lemma sort_insert_first (x : A) (l : list A) :
  Forall (fun z => compareFn x z <= 0) l -> sort_insert compareFn x l = x :: l.
Proof.
  intros H. destruct l as [|y l]; [reflexivity|]. simpl.
  inversion H as [|? ? Hy _]; subst.
  destruct (Z.leb_spec (compareFn x y) 0); [reflexivity | lia].
Qed.

Lemma filter_sort_insert (p : A -> bool) (x : A) (l : list A) :
  StronglySorted (fun a b => compareFn a b <= 0) l ->
  List.filter p (sort_insert compareFn x l)
  = if p x then sort_insert compareFn x (List.filter p l) else List.filter p l.
Proof.
  induction 1 as [|y l Hl IH Hy]; simpl.
  - now destruct (p x).
  - destruct (Z.leb_spec (compareFn x y) 0) as [Hle|Hgt]; simpl.
    + destruct (p x) eqn:Hpx; [|reflexivity].
      destruct (p y) eqn:Hpy; simpl.
      * destruct (Z.leb_spec (compareFn x y) 0); [reflexivity | lia].
      * symmetry. apply sort_insert_first.
        apply Forall_forall. intros z Hz. apply list_elem_of_In, filter_In in Hz as [Hz _].
        rewrite Forall_forall in Hy. apply compareFn_trans with y; [exact Hle|].
        apply Hy. now apply list_elem_of_In.
    + rewrite IH. destruct (p y) eqn:Hpy; destruct (p x) eqn:Hpx; simpl; try reflexivity.
      destruct (Z.leb_spec (compareFn x y) 0); [lia | reflexivity].
Qed.

Lemma filter_sort (p : A -> bool) (l : list A) :
  List.filter p (sort compareFn l) = sort compareFn (List.filter p l).
Proof.
  induction l as [|x l IH]; [reflexivity|].
  cbn [sort foldr]. fold (sort compareFn l).
  rewrite filter_sort_insert by now apply sort_sorted.
  rewrite IH. simpl. now destruct (p x).
Qed.
End ArraySortFilter.

Lemma filteredNotes_blank (ns : list Note) (t : string) :
  Str.trim t = "" -> filteredNotes ns t = sort compareNotes ns.
Proof. intros Ht. unfold filteredNotes. now rewrite Ht. Qed.

Lemma filteredNotes_term (ns : list Note) (t : string) :
  Str.trim t <> "" ->
  filteredNotes ns t
  = sort compareNotes (List.filter (matchesTerm (Str.toLowerCase t)) ns).
Proof. intros Ht. unfold filteredNotes. apply trim_truthy in Ht. now rewrite Ht. Qed.

(** X1. A search only hides notes: the view for a search term is the view
    for the empty term with the notes that do not match taken out, the
    others staying in the order they had. *)
Theorem search_hides_only (ns : list Note) (t : string) :
  Str.trim t <> "" ->
  filteredNotes ns t
  = List.filter (matchesTerm (Str.toLowerCase t)) (filteredNotes ns "").
Proof.
  intros Ht. rewrite (filteredNotes_term ns t Ht), (filteredNotes_blank ns "") by reflexivity.
  symmetry. apply filter_sort; [apply compareNotes_total | apply compareNotes_trans].
Qed.

Lemma search_hides_only_witness :
  filteredNotes (notes sampleState) "o"
  = List.filter (matchesTerm (Str.toLowerCase "o")) (filteredNotes (notes sampleState) "").
Proof. apply (search_hides_only (notes sampleState) "o"). discriminate. Defined.

Lemma isWhiteSpace_lowerUnit (c : ascii) :
  Str.isWhiteSpace (Str.lowerUnit c) = Str.isWhiteSpace c.
Proof. destruct c as [[] [] [] [] [] [] [] []]; reflexivity. Qed.

Lemma trimStart_toLowerCase (s : string) :
  Str.trimStart (Str.toLowerCase s) = Str.toLowerCase (Str.trimStart s).
Proof.
  induction s as [|c s IH]; [reflexivity|]. simpl.
  rewrite isWhiteSpace_lowerUnit. now destruct (Str.isWhiteSpace c).
Qed.

Lemma trimEnd_toLowerCase (s : string) :
  Str.trimEnd (Str.toLowerCase s) = Str.toLowerCase (Str.trimEnd s).
Proof.
  induction s as [|c s IH]; [reflexivity|]. simpl.
  rewrite IH, isWhiteSpace_lowerUnit.
  destruct (Str.trimEnd s); simpl; [now destruct (Str.isWhiteSpace c) | reflexivity].
Qed.

Lemma trim_toLowerCase (s : string) :
  Str.trim (Str.toLowerCase s) = Str.toLowerCase (Str.trim s).
Proof. unfold Str.trim. now rewrite trimStart_toLowerCase, trimEnd_toLowerCase. Qed.

Lemma truthy_toLowerCase (s : string) : Str.truthy (Str.toLowerCase s) = Str.truthy s.
Proof. now destruct s. Qed.

(** X2. The view depends on the search term only through its lower-case
    form: two terms that differ in the case of their letters give the same
    view. *)
Theorem search_ignores_case_of_term (ns : list Note) (t t' : string) :
  Str.toLowerCase t = Str.toLowerCase t' ->
  filteredNotes ns t = filteredNotes ns t'.
Proof.
  intros H. unfold filteredNotes.
  rewrite <- (truthy_toLowerCase (Str.trim t)), <- (truthy_toLowerCase (Str.trim t')).
  now rewrite <- !trim_toLowerCase, H.
Qed.

Lemma search_ignores_case_of_term_witness :
  filteredNotes (notes sampleState) "Milk" = filteredNotes (notes sampleState) "mILK".
Proof. apply (search_ignores_case_of_term (notes sampleState) "Milk" "mILK"). reflexivity. Defined.

Lemma containsIgnoringCase_empty (t : string) :
  containsIgnoringCase t "" -> t = "".
Proof.
  intros (pre & mid & post & H & Hmid).
  destruct pre; [|discriminate]. destruct mid; [|discriminate].
  now destruct t.
Qed.

(** X3. A note just created is in the list exactly when the search box is
    blank or its text occurs, case ignored, in "Untitled": a new note made
    while another search is on is opened in the editor but not listed. *)
Theorem createNote_listed (h : Host) (st : State) :
  let st' := createNote h st in
  forall newNote : Note,
    head (notes st') = Some newNote ->
    (In newNote (filteredNotes (notes st') (searchTerm st'))
     <-> Str.trim (searchTerm st) = ""
         \/ containsIgnoringCase (searchTerm st) "Untitled").
Proof.
  intros st' newNote [= <-]. unfold st'. cbn [createNote notes searchTerm].
  set (new := {| id := createId h; title := "Untitled"; content := "";
                 createdAt := toISOString h; updatedAt := toISOString h;
                 pinned := false; color := palette_at (palette_index h) |}).
  destruct (String.string_dec (Str.trim (searchTerm st)) "") as [Hblank|Hterm].
  - rewrite (filteredNotes_blank _ _ Hblank). split; [tauto|]. intros _.
    eapply Permutation_in; [apply sort_perm | now left].
  - rewrite (filteredNotes_term _ _ Hterm).
    assert (Hin : In new (sort compareNotes
                            (List.filter (matchesTerm (Str.toLowerCase (searchTerm st)))
                                         (new :: notes st)))
                  <-> matchesTerm (Str.toLowerCase (searchTerm st)) new = true).
    { split.
      - intros H. eapply Permutation_in in H; [|symmetry; apply sort_perm].
        now apply filter_In in H.
      - intros H. eapply Permutation_in; [apply sort_perm|].
        apply filter_In. split; [now left | exact H]. }
    rewrite Hin, matchesTerm_spec. cbn [title content new]. split.
    + intros [H|H]; [now right|].
      apply containsIgnoringCase_empty in H. rewrite H in Hterm. now contradiction Hterm.
    + intros [H|H]; [contradiction | now left].
Qed.

Lemma createNote_listed_witness :
  In (mkNote (createId host1) "Untitled" "" (toISOString host1) (toISOString host1) false
        (palette_at (palette_index host1)))
     (filteredNotes (notes (createNote host1 (setSearchTerm "TITLE" sampleState)))
                    (searchTerm (createNote host1 (setSearchTerm "TITLE" sampleState)))).
Proof.
  apply (createNote_listed host1 (setSearchTerm "TITLE" sampleState) _ eq_refl).
  right. exists "Un", "title", "d". split; reflexivity.
Defined.

(** With "milk" in the search box, the new note is not listed. *)
Example createNote_not_listed :
  map id (filteredNotes (notes (createNote host1 (setSearchTerm "milk" sampleState)))
                        (searchTerm (createNote host1 (setSearchTerm "milk" sampleState))))
  = ["n1"].
Proof. reflexivity. Qed.

(** ** Where a new note is listed *)

Lemma sorted_after_unpinned (y : Note) (l : list Note) :
  pinned y = false ->
  Forall (fun z => compareNotes y z <= 0) l ->
  Forall (fun z => pinned z = false) l.
Proof.
  intros Hy H. eapply Forall_impl; [exact H|]. intros z Hz. simpl in Hz.
  unfold compareNotes, Number in Hz. rewrite Hy in Hz.
  destruct (pinned z); [simpl in Hz; lia | reflexivity].
Qed.

Lemma filter_pinned_none (l : list Note) :
  Forall (fun z => pinned z = false) l ->
  List.filter pinned l = [] /\ List.filter (fun n => negb (pinned n)) l = l.
Proof.
  induction 1 as [|z l Hz Hl [IH1 IH2]]; [now split|].
  simpl. rewrite Hz. simpl. now rewrite IH1, IH2.
Qed.

Lemma sort_insert_below_pinned (x : Note) (v : list Note) :
  StronglySorted (fun a b => compareNotes a b <= 0) v ->
  pinned x = false ->
  (forall y, In y v -> pinned y = false ->
             Str.localeCompare (updatedAt y) (updatedAt x) <= 0) ->
  sort_insert compareNotes x v
  = (List.filter pinned v ++ x :: List.filter (fun n => negb (pinned n)) v)%list.
Proof.
  intros Hs Hx. induction Hs as [|y v Hv IH Hy]; intros Hold; [reflexivity|].
  cbn [sort_insert List.filter].
  destruct (pinned y) eqn:Hpy; cbn [negb].
  - assert (Hgt : 0 < compareNotes x y)
      by (unfold compareNotes, Number; rewrite Hx, Hpy; simpl; lia).
    destruct (Z.leb_spec (compareNotes x y) 0); [lia|].
    rewrite IH; [reflexivity|]. intros z Hz. apply Hold. now right.
  - assert (Hle : compareNotes x y <= 0).
    { unfold compareNotes, Number. rewrite Hx, Hpy. simpl. apply Hold; [now left | exact Hpy]. }
    destruct (Z.leb_spec (compareNotes x y) 0); [|lia].
    destruct (filter_pinned_none v (sorted_after_unpinned y v Hpy Hy)) as [-> ->].
    reflexivity.
Qed.

(** X4. With a blank search box and a clock that is not behind any stored
    [updatedAt], a new note is listed directly below the pinned notes and
    above every other note: the list is the pinned notes of the former
    list, then the new note, then the former unpinned notes. *)
Theorem createNote_position (h : Host) (st : State) :
  Str.trim (searchTerm st) = "" ->
  (forall note, In note (notes st) ->
                Str.localeCompare (updatedAt note) (toISOString h) <= 0) ->
  let view := filteredNotes (notes st) (searchTerm st) in
  exists newNote : Note,
    head (notes (createNote h st)) = Some newNote
    /\ filteredNotes (notes (createNote h st)) (searchTerm (createNote h st))
       = (List.filter pinned view
          ++ newNote :: List.filter (fun n => negb (pinned n)) view)%list.
Proof.
  intros Hblank Hclock view. eexists. split; [reflexivity|].
  unfold view. cbn [createNote notes searchTerm].
  rewrite !(filteredNotes_blank _ _ Hblank). cbn [sort foldr]. fold (sort compareNotes (notes st)).
  apply sort_insert_below_pinned.
  - apply sort_sorted; [apply compareNotes_total | apply compareNotes_trans].
  - reflexivity.
  - intros y Hy _. apply Hclock. eapply Permutation_in; [symmetry; apply sort_perm | exact Hy].
Qed.

Lemma createNote_position_witness :
  map id (filteredNotes (notes (createNote host1 sampleState))
                        (searchTerm (createNote host1 sampleState)))
  = ["n3"; "4f1c2d3e-0000-4000-8000-000000000001"; "n2"; "n1"].
Proof.
  destruct (createNote_position host1 sampleState) as (n & Hn & ->).
  - reflexivity.
  - intros note [<-|[<-|[<-|[]]]]; vm_compute; discriminate.
  - injection Hn as <-. reflexivity.
Defined.

(** ** How the handlers compose *)

Lemma filter_other_ids (nid : string) (l : list Note) :
  ~ In nid (map id l) ->
  List.filter (fun note => negb (String.eqb (id note) nid)) l = l.
Proof.
  induction l as [|n l IH]; intros H; [reflexivity|]. simpl.
  destruct (String.eqb_spec (id n) nid) as [Heq|_]; simpl.
  - exfalso. apply H. now left.
  - rewrite IH; [reflexivity|]. intros Hin. apply H. now right.
Qed.

(** X5. Creating a note and deleting it at once gives the former list back,
    when the new id is not already in the store; the selection does not go
    back to the note selected before, it goes to the first note of the
    store, or to none in an empty store. *)
Theorem createNote_then_delete (h : Host) (st : State) :
  ~ In (createId h) (ids st) ->
  let st' := deleteNote (createId h) (createNote h st) in
  notes st' = notes st
  /\ searchTerm st' = searchTerm st
  /\ activeId st' = option_map id (head (notes st)).
Proof.
  intros Hfresh st'. unfold st', deleteNote, isActive.
  cbn [createNote notes searchTerm activeId id List.filter].
  rewrite String.eqb_refl. cbn [negb].
  rewrite (filter_other_ids _ _ Hfresh).
  split; [reflexivity|]. split; [reflexivity|]. now destruct (notes st).
Qed.

Lemma createNote_then_delete_witness :
  notes (deleteNote (createId host1) (createNote host1 (selectNote "n2" sampleState)))
  = notes sampleState
  /\ activeId (deleteNote (createId host1) (createNote host1 (selectNote "n2" sampleState)))
     = Some "n1".
Proof.
  destruct (createNote_then_delete host1 (selectNote "n2" sampleState)) as (H1 & _ & H2).
  - intros [H|[H|[H|[]]]]; discriminate.
  - split; [exact H1 | exact H2].
Defined.

Lemma mergeNote_overlay (note : Note) (p1 p2 : Payload) (t1 t2 : string) :
  mergeNote (mergeNote note p1 t1) p2 t2 = mergeNote note (overlayPayload p2 p1) t2.
Proof.
  unfold mergeNote, overlayPayload. simpl.
  destruct (p_title p2), (p_content p2), (p_pinned p2), (p_color p2); reflexivity.
Qed.

(** X6. Two updates of the same id in a row are one update: each field
    takes the value of the later payload where it has one, else that of
    the earlier payload, and [updatedAt] is the later clock reading. *)
Theorem updateNote_twice (h1 h2 : Host) (nid : string) (p1 p2 : Payload) (st : State) :
  updateNote h2 nid p2 (updateNote h1 nid p1 st)
  = updateNote h2 nid (overlayPayload p2 p1) st.
Proof.
  unfold updateNote. cbn [notes searchTerm activeId]. f_equal.
  rewrite List.map_map. apply List.map_ext. intros note.
  destruct (String.eqb (id note) nid) eqn:Heq.
  - cbn [mergeNote id]. rewrite Heq. apply mergeNote_overlay.
  - now rewrite Heq.
Qed.

(** X7. Updates of two different ids do not interfere: done in either
    order they give the same state. *)
Theorem updateNote_commute
    (ha hb : Host) (a b : string) (pa pb : Payload) (st : State) :
  a <> b ->
  updateNote ha a pa (updateNote hb b pb st) = updateNote hb b pb (updateNote ha a pa st).
Proof.
  intros Hab. unfold updateNote. cbn [notes searchTerm activeId]. f_equal.
  rewrite !List.map_map. apply List.map_ext. intros note.
  destruct (String.eqb_spec (id note) a) as [Ha|Ha];
    destruct (String.eqb_spec (id note) b) as [Hb|Hb]; cbn [mergeNote id].
  - congruence.
  - destruct (String.eqb_spec (id note) a); [|contradiction].
    destruct (String.eqb_spec (id note) b); [contradiction | reflexivity].
  - destruct (String.eqb_spec (id note) a); [contradiction|].
    destruct (String.eqb_spec (id note) b); [reflexivity | contradiction].
  - destruct (String.eqb_spec (id note) a); [contradiction|].
    destruct (String.eqb_spec (id note) b); [contradiction | reflexivity].
Qed.

Lemma updateNote_commute_witness :
  updateNote host1 "n1" (pinnedPayload true) (updateNote host2 "n2" renameWork sampleState)
  = updateNote host2 "n2" renameWork (updateNote host1 "n1" (pinnedPayload true) sampleState).
Proof. apply (updateNote_commute host1 host2 "n1" "n2"). discriminate. Defined.

Lemma deleteNote_absent (nid : string) (st : State) :
  (forall note, In note (notes st) -> id note <> nid) ->
  activeId st <> Some nid ->
  deleteNote nid st = st.
Proof.
  intros Habs Hact. unfold deleteNote.
  assert (Hin : ~ In nid (map id (notes st))).
  { intros H. apply in_map_iff in H as (n & Hn & Hin). now apply (Habs n). }
  rewrite (filter_other_ids _ _ Hin).
  destruct (isActive st nid) eqn:H; [apply isActive_true in H; contradiction|].
  apply state_eta.
Qed.

(** X8. After [deleteNote] no note of the store has the id, and deleting
    the same id again changes nothing, neither the notes nor the
    selection. *)
Theorem deleteNote_idempotent (nid : string) (st : State) :
  (forall note, In note (notes (deleteNote nid st)) -> id note <> nid)
  /\ deleteNote nid (deleteNote nid st) = deleteNote nid st.
Proof.
  assert (Hgone : forall note, In note (notes (deleteNote nid st)) -> id note <> nid).
  { intros note Hin. rewrite deleteNote_notes in Hin. apply filter_In in Hin as [_ Hne].
    now destruct (String.eqb_spec (id note) nid). }
  split; [exact Hgone|].
  apply deleteNote_absent; [exact Hgone|].
  intros Hact. unfold deleteNote in Hact at 1. cbn [activeId] in Hact.
  destruct (isActive st nid) eqn:Hst.
  - rewrite <- deleteNote_notes in Hact.
    destruct (notes (deleteNote nid st)) as [|first rest] eqn:Hn; [discriminate|].
    injection Hact as Hact. apply (Hgone first); [now left | exact Hact].
  - apply isActive_true in Hact. congruence.
Qed.

(** ** One note at a time, where ids are distinct *)

Lemma NoDup_ids_split (pre post : list Note) (n : Note) :
  List.NoDup (map id (pre ++ n :: post)%list) ->
  ~ In (id n) (map id pre) /\ ~ In (id n) (map id post).
Proof.
  rewrite List.map_app. cbn [map]. intros H.
  apply List.NoDup_remove_2 in H. rewrite in_app_iff in H. tauto.
Qed.

(** X9. In a store with distinct ids, [deleteNote] takes out the one note
    with the id and keeps every other note, in order. *)
Theorem deleteNote_exact (st : State) (pre post : list Note) (n : Note) :
  notes st = (pre ++ n :: post)%list ->
  List.NoDup (ids st) ->
  notes (deleteNote (id n) st) = (pre ++ post)%list.
Proof.
  intros Hsplit Hnd. unfold ids in Hnd. rewrite Hsplit in Hnd.
  destruct (NoDup_ids_split pre post n Hnd) as [Hpre Hpost].
  rewrite deleteNote_notes, Hsplit, List.filter_app. cbn [List.filter].
  rewrite String.eqb_refl. cbn [negb].
  now rewrite (filter_other_ids _ _ Hpre), (filter_other_ids _ _ Hpost).
Qed.

Lemma deleteNote_exact_witness :
  notes (deleteNote "n2" sampleState) = [groceries; ideas].
Proof.
  apply (deleteNote_exact sampleState [groceries] [ideas] work); [reflexivity|].
  repeat constructor; simpl; intuition discriminate.
Defined.

Lemma map_update_absent (f : Note -> Note) (nid : string) (l : list Note) :
  ~ In nid (map id l) ->
  map (fun note => if String.eqb (id note) nid then f note else note) l = l.
Proof.
  induction l as [|x l IH]; intros H; [reflexivity|]. cbn [map].
  destruct (String.eqb_spec (id x) nid) as [Heq|_].
  - exfalso. apply H. now left.
  - rewrite IH; [reflexivity|]. intros Hin. apply H. now right.
Qed.

(** X10. In a store with distinct ids, [updateNote] rewrites one entry of
    the list and nothing else: the list after the update is the list
    before with the merged note put at the index of the note updated. *)
Theorem updateNote_exact
    (h : Host) (payload : Payload) (st : State) (i : nat) (n : Note) :
  notes st !! i = Some n ->
  List.NoDup (ids st) ->
  notes (updateNote h (id n) payload st)
  = <[i := mergeNote n payload (toISOString h)]> (notes st).
Proof.
  unfold ids. cbn [updateNote notes]. generalize (notes st). clear st.
  intros l. revert i. induction l as [|x l IH]; intros i Hi Hnd; [discriminate|].
  inversion Hnd as [|? ? Hx Hl]; subst. destruct i as [|i]; cbn [map].
  - injection Hi as ->. rewrite String.eqb_refl. cbn [list_insert].
    simpl. f_equal. now apply map_update_absent.
  - simpl in Hi. destruct (String.eqb_spec (id x) (id n)) as [Heq|_].
    + exfalso. apply Hx. rewrite Heq. apply in_map.
      apply list_elem_of_In. eapply list_elem_of_lookup_2. exact Hi.
    + simpl. f_equal. now apply IH.
Qed.

Lemma updateNote_exact_witness :
  notes (updateNote host1 "n2" renameWork sampleState)
  = [groceries; mergeNote work renameWork (toISOString host1); ideas].
Proof.
  apply (updateNote_exact host1 renameWork sampleState 1 work); [reflexivity|].
  repeat constructor; simpl; intuition discriminate.
Defined.

(** ** The selection during a session *)

Lemma view_In (ns : list Note) (t : string) (n : Note) :
  In n (filteredNotes ns t) -> In n ns.
Proof.
  unfold filteredNotes. destruct (negb _); intros H;
    (eapply Permutation_in in H; [|symmetry; apply sort_perm]); [exact H|].
  now apply filter_In in H.
Qed.

Lemma selectionOk_updateNote (h : Host) (nid : string) (p : Payload) (st : State) :
  selectionOk st -> selectionOk (updateNote h nid p st).
Proof.
  unfold selectionOk. rewrite ids_updateNote. cbn [updateNote activeId notes].
  destruct (activeId st); [tauto|]. now intros ->.
Qed.

Lemma selectionOk_duplicateNote (h : Host) (nid : string) (st : State) :
  selectionOk st -> selectionOk (duplicateNote h nid st).
Proof.
  intros H. unfold duplicateNote. destruct (List.find _ _); [|exact H].
  unfold selectionOk, ids. simpl. now left.
Qed.

Lemma selectionOk_deleteNote (nid : string) (st : State) :
  selectionOk st -> selectionOk (deleteNote nid st).
Proof.
  unfold selectionOk, ids, deleteNote, isActive. cbn [activeId notes].
  destruct (activeId st) as [a|].
  - intros Ha. destruct (String.eqb_spec a nid) as [Heq|Hne].
    + destruct (List.filter _ _); [reflexivity | simpl; now left].
    + apply in_map_iff in Ha as (n & Hn & Hin). apply in_map_iff. exists n.
      split; [exact Hn|]. apply filter_In. split; [exact Hin|].
      destruct (String.eqb_spec (id n) nid); [congruence | reflexivity].
  - now intros ->.
Qed.

Lemma selectionOk_handle (h : Host) (st : State) (e : Event) :
  selectionOk st -> selectionOk (handle h st e).
Proof.
  intros H. destruct e; cbn [handle].
  - unfold selectionOk, ids. simpl. now left.
  - exact H.
  - destruct (_ !! k) as [note|] eqn:Hk; [|exact H].
    unfold selectionOk, ids. simpl. apply in_map.
    apply (view_In _ (searchTerm st)), list_elem_of_In. eapply list_elem_of_lookup_2. exact Hk.
  - destruct (_ !! k); [now apply selectionOk_updateNote | exact H].
  - destruct (activeNote st); [now apply selectionOk_updateNote | exact H].
  - destruct (activeNote st); [now apply selectionOk_updateNote | exact H].
  - destruct (activeNote st); [now apply selectionOk_duplicateNote | exact H].
  - destruct (activeNote st); [now apply selectionOk_deleteNote | exact H].
  - destruct (activeNote st); [now apply selectionOk_updateNote | exact H].
  - destruct (activeNote st); [|exact H].
    destruct (palettes !! k); [now apply selectionOk_updateNote | exact H].
Qed.

Lemma selectionOk_activeNote (st : State) :
  selectionOk st ->
  (activeNote st = None <-> notes st = [])
  /\ (forall n, activeNote st = Some n -> In n (notes st) /\ activeId st = Some (id n)).
Proof.
  unfold selectionOk, activeNote, ids. destruct (activeId st) as [a|].
  - intros Ha. split.
    + split.
      * intros Hnone. apply in_map_iff in Ha as (n & Hn & Hin).
        pose proof (List.find_none _ _ Hnone n Hin) as Hf. simpl in Hf.
        rewrite Hn, String.eqb_refl in Hf. discriminate.
      * now intros ->.
    + intros n Hfind. apply List.find_some in Hfind as [Hin Heq].
      apply String.eqb_eq in Heq. split; [exact Hin | now rewrite Heq].
  - intros ->. split; [tauto | discriminate].
Qed.

(** X11. The selection stays in order during a session.  From a state
    whose selection is in order (the empty store with no selection is
    one), after any sequence of uses of the page's controls, the editor
    panel is empty exactly when the store is empty; otherwise the note it
    shows is a note of the store and is the one [activeId] names. *)
Theorem selection_stays_in_order (st : State) (events : list (Host * Event)) :
  selectionOk st ->
  let st' := handleAll st events in
  selectionOk st'
  /\ (activeNote st' = None <-> notes st' = [])
  /\ (forall n, activeNote st' = Some n -> In n (notes st') /\ activeId st' = Some (id n)).
Proof.
  intros H st'. assert (Hok : selectionOk st').
  { unfold st'. clear st'. revert st H.
    induction events as [|[h e] events IH]; intros st H; [exact H|].
    cbn [handleAll]. apply IH. now apply selectionOk_handle. }
  split; [exact Hok|]. now apply selectionOk_activeNote.
Qed.

Lemma selection_stays_in_order_witness :
  selectionOk (handleAll emptyState sampleSession)
  /\ (activeNote (handleAll emptyState sampleSession) = None
      <-> notes (handleAll emptyState sampleSession) = []).
Proof.
  destruct (selection_stays_in_order emptyState sampleSession) as (H1 & H2 & _).
  - reflexivity.
  - split; [exact H1 | exact H2].
Defined.

Example sampleSession_result :
  map id (notes (handleAll emptyState sampleSession))
  = ["4f1c2d3e-0000-4000-8000-000000000001"]
  /\ activeId (handleAll emptyState sampleSession)
     = Some "4f1c2d3e-0000-4000-8000-000000000001".
Proof. split; reflexivity. Qed.

(** ** What the controls act on *)

Lemma find_map_same_id (g : Note -> Note) (a : string) (l : list Note) :
  (forall x, id (g x) = id x) ->
  List.find (fun x => String.eqb (id x) a) (map g l)
  = option_map g (List.find (fun x => String.eqb (id x) a) l).
Proof.
  intros Hg. induction l as [|x l IH]; [reflexivity|]. cbn [map List.find].
  rewrite Hg. now destruct (String.eqb (id x) a).
Qed.

Lemma activeNote_updateNote (h : Host) (p : Payload) (st : State) (n : Note) :
  activeNote st = Some n ->
  activeNote (updateNote h (id n) p st) = Some (mergeNote n p (toISOString h)).
Proof.
  unfold activeNote. cbn [updateNote activeId notes].
  destruct (activeId st) as [a|]; [|discriminate]. intros Hfind.
  rewrite find_map_same_id by (intros x; now destruct (String.eqb (id x) (id n))).
  rewrite Hfind. cbn [option_map]. now rewrite String.eqb_refl.
Qed.

(** X12. The controls of the editor panel act on the note that the panel
    shows: after typing in the title or in the content, after the pin
    button and after an accent swatch, the panel shows that same note with
    the one field changed and [updatedAt] set to the current timestamp. *)
Theorem editor_edits_open_note (h : Host) (st : State) (n : Note) :
  activeNote st = Some n ->
  (forall value,
     activeNote (handle h st (TypeTitle value))
     = Some (mergeNote n (titlePayload value) (toISOString h)))
  /\ (forall value,
        activeNote (handle h st (TypeContent value))
        = Some (mergeNote n (contentPayload value) (toISOString h)))
  /\ activeNote (handle h st ClickPin)
     = Some (mergeNote n (pinnedPayload (negb (pinned n))) (toISOString h))
  /\ (forall k c,
        palettes !! k = Some c ->
        activeNote (handle h st (ClickAccent k))
        = Some (mergeNote n (colorPayload c) (toISOString h))).
Proof.
  intros Hn. repeat split; intros; cbn [handle]; rewrite Hn;
    try match goal with H : palettes !! _ = Some _ |- _ => rewrite H end;
    now apply activeNote_updateNote.
Qed.

Lemma editor_edits_open_note_witness :
  option_map title (activeNote (handle host2 sampleState (TypeTitle "Shopping")))
  = Some "Shopping"
  /\ option_map pinned (activeNote (handle host2 sampleState ClickPin)) = Some true.
Proof.
  destruct (editor_edits_open_note host2 sampleState groceries eq_refl) as (Ht & _ & Hp & _).
  rewrite Ht, Hp. split; reflexivity.
Defined.

Lemma find_unique (l : list Note) (n : Note) :
  List.NoDup (map id l) -> In n l ->
  List.find (fun x => String.eqb (id x) (id n)) l = Some n.
Proof.
  induction l as [|x l IH]; intros Hnd Hin; [contradiction|].
  inversion Hnd as [|? ? Hx Hl]; subst. cbn [List.find].
  destruct Hin as [->|Hin]; [now rewrite String.eqb_refl|].
  destruct (String.eqb_spec (id x) (id n)) as [Heq|_]; [|now apply IH].
  exfalso. apply Hx. rewrite Heq. now apply in_map.
Qed.

(** X13. In a store with distinct ids, a click on a card of the list opens
    the note of that card: the editor panel then shows the note at that
    place of the view. *)
Theorem click_opens_listed_note (h : Host) (st : State) (k : nat) (n : Note) :
  List.NoDup (ids st) ->
  filteredNotes (notes st) (searchTerm st) !! k = Some n ->
  activeNote (handle h st (ClickItem k)) = Some n.
Proof.
  intros Hnd Hk. cbn [handle]. rewrite Hk. unfold activeNote. cbn [selectNote activeId notes].
  apply find_unique; [exact Hnd|].
  apply (view_In _ (searchTerm st)), list_elem_of_In. eapply list_elem_of_lookup_2. exact Hk.
Qed.

Lemma click_opens_listed_note_witness :
  activeNote (handle host1 sampleState (ClickItem 0)) = Some ideas.
Proof.
  apply (click_opens_listed_note host1 sampleState 0 ideas); [|reflexivity].
  repeat constructor; simpl; intuition discriminate.
Defined.

(** ** Mounting the page *)

Lemma getInitialNotes_returns
    (JSON_parse : string -> outcome json) (window : option Window) (log : Console) :
  exists (loaded : list json) (log' : Console),
    getInitialNotes JSON_parse window log = (Returns loaded, log').
Proof.
  destruct window as [w|]; [|now exists [], log].
  unfold getInitialNotes, tryCatch, bind, call, ret, console_warn.
  destruct (localStorage w) as [storage|e]; [|eauto].
  destruct (storage !! STORAGE_KEY) as [text|]; [|eauto].
  destruct (negb (Str.truthy text)); [eauto|].
  destruct (JSON_parse text); eauto.
Qed.

(** X14. The mount effect fails in one case only: when the array read from
    the storage has [null] as its first element, reading [initial[0].id]
    throws a TypeError that nothing catches.  In every other case the
    effect ends normally. *)
Theorem mountEffect_fails_on_null
    (JSON_parse : string -> outcome json) (window : option Window) (log : Console) :
  (exists (error : string) (log' : Console),
     mountEffect JSON_parse window log = (Throws error, log'))
  <-> (exists (rest : list json) (log' : Console),
         getInitialNotes JSON_parse window log = (Returns (JNull :: rest), log')
         /\ mountEffect JSON_parse window log = (Throws "TypeError", log')).
Proof.
  destruct (getInitialNotes_returns JSON_parse window log) as (loaded & log' & Hload).
  unfold mountEffect, bind. rewrite Hload. split.
  - intros (error & log'' & H). destruct loaded as [|first rest]; [discriminate|].
    destruct first; try discriminate. now exists rest, log'.
  - intros (rest & log'' & _ & H). eauto.
Qed.

Lemma mountEffect_fails_on_null_witness :
  mountEffect Json.parse (Some nullWindow) [] = (Throws "TypeError", []).
Proof.
  destruct (mountEffect_fails_on_null Json.parse (Some nullWindow) []) as [_ H].
  destruct H as (error & log' & H).
  - exists [], []. split; reflexivity.
  - reflexivity.
Defined.

(** X15. Reloading the page: when the storage can be read, mounting on what
    the persistence effect wrote for a note list gives a page with the same
    notes in the same order, an empty search box, and the first note of
    the store selected (none in an empty store), whatever was selected
    before; the write leaves the other keys of the storage as they were. *)
Theorem reload_restores_notes
    (w : Window) (storage : gmap string string) (ns : list Note) (log : Console) :
  localStorage w = Returns storage ->
  exists (w' : Window) (storage' : gmap string string) (m : list json * selection),
    persistNotes Json.stringify (Some w) ns = Returns (Some w')
    /\ localStorage w' = Returns storage'
    /\ (forall key, key <> STORAGE_KEY -> storage' !! key = storage !! key)
    /\ mountEffect Json.parse (Some w') log = (Returns m, log)
    /\ stateOfMount m
       = Some {| notes := ns; searchTerm := ""; activeId := option_map id (head ns) |}.
Proof.
  intros Hls.
  destruct (persist_then_load Json.parse Json.stringify json_parse_stringify json_parse_empty
              w storage ns log Hls) as (w' & loaded & Hp & Hload & -> & Hnotes).
  exists w', (<[STORAGE_KEY := Json.stringify (notes_to_json ns)]> storage).
  exists (map note_to_json ns,
          match ns with
          | [] => Unset
          | n :: _ => SetTo (Some (JString (id n)))
          end).
  split; [exact Hp|].
  split; [unfold persistNotes in Hp; rewrite Hls in Hp; now injection Hp as <-|].
  split; [intros key Hkey; now apply lookup_insert_ne|].
  split.
  - unfold mountEffect, bind. rewrite Hload. now destruct ns.
  - unfold stateOfMount. cbn [fst snd]. rewrite Hnotes. now destruct ns.
Qed.

Lemma reload_restores_notes_witness :
  exists m : list json * selection,
    mountEffect Json.parse
      (Some {| localStorage :=
                 Returns (<[STORAGE_KEY := Json.stringify (notes_to_json (notes sampleState))]>
                            brokenStorage) |}) []
    = (Returns m, [])
    /\ stateOfMount m
       = Some {| notes := notes sampleState; searchTerm := ""; activeId := Some "n1" |}.
Proof.
  destruct (reload_restores_notes brokenWindow brokenStorage (notes sampleState) [] eq_refl)
    as (w' & storage' & m & Hp & _ & _ & Hm & Hs).
  injection Hp as <-. exists m. split; [exact Hm | exact Hs].
Defined.

Lemma note_of_json_id (v : json) (n : Note) :
  note_of_json v = Some n -> readId v = Returns (Some (JString (id n))).
Proof.
  destruct v as [| | | | |ms]; try discriminate. cbn [note_of_json readId].
  unfold stringMember at 1. destruct (member "id" ms) as [[| | |s| |]|]; try discriminate.
  destruct (stringMember "title" ms), (stringMember "content" ms),
    (stringMember "createdAt" ms), (stringMember "updatedAt" ms),
    (boolMember "pinned" ms), (stringMember "color" ms); try discriminate.
  now intros [= <-].
Qed.

(** X16. A mounted page has its selection in order: whenever the mount
    effect ends normally and what it read holds notes, no note is selected
    in an empty store and otherwise the selected id is the id of the first
    note of the store.  So the sessions that start from a mount keep the
    selection in order (X11). *)
Theorem mountEffect_selection
    (JSON_parse : string -> outcome json) (window : option Window) (log log' : Console)
    (m : list json * selection) (st : State) :
  mountEffect JSON_parse window log = (Returns m, log') ->
  stateOfMount m = Some st ->
  searchTerm st = ""
  /\ activeId st = option_map id (head (notes st))
  /\ selectionOk st.
Proof.
  destruct (getInitialNotes_returns JSON_parse window log) as (loaded & log1 & Hload).
  unfold mountEffect, bind. rewrite Hload.
  destruct loaded as [|first rest].
  - intros [= <- _]. unfold stateOfMount. cbn. intros [= <-]. now repeat split.
  - unfold call, ret. unfold stateOfMount.
    destruct (readId first) as [i|e] eqn:Hid; [|discriminate].
    intros [= <- _]. cbn [fst snd asNotes].
    destruct (note_of_json first) as [n|] eqn:Hn; [|discriminate].
    destruct (asNotes rest) as [ns|]; [|discriminate].
    rewrite (note_of_json_id first n Hn) in Hid. injection Hid as <-.
    intros [= <-]. split; [reflexivity|]. split; [reflexivity|].
    unfold selectionOk, ids. simpl. now left.
Qed.

Lemma mountEffect_selection_witness :
  activeId {| notes := [work; ideas]; searchTerm := ""; activeId := Some "n2" |}
  = option_map id (head [work; ideas])
  /\ selectionOk {| notes := [work; ideas]; searchTerm := ""; activeId := Some "n2" |}.
Proof.
  destruct (mountEffect_selection Json.parse
              (Some {| localStorage :=
                         Returns {[ STORAGE_KEY :=
                                      Json.stringify (notes_to_json [work; ideas]) ]} |})
              [] []
              (map note_to_json [work; ideas], SetTo (Some (JString "n2")))
              {| notes := [work; ideas]; searchTerm := ""; activeId := Some "n2" |})
    as (_ & H1 & H2).
  - vm_compute. reflexivity.
  - reflexivity.
  - split; [exact H1 | exact H2].
Defined.

(** ** Ties and narrowing *)

Lemma sort_all_tied {A} (compareFn : A -> A -> Z) (l : list A) :
  (forall a b, In a l -> In b l -> compareFn a b <= 0) ->
  sort compareFn l = l.
Proof.
  induction l as [|x l IH]; intros H; [reflexivity|].
  cbn [sort foldr]. fold (sort compareFn l).
  rewrite IH by (intros a b Ha Hb; apply H; now right).
  apply sort_insert_first. apply Forall_forall. intros z Hz.
  apply H; [now left | right; now apply list_elem_of_In].
Qed.

(** X17. Ties keep store order: with a blank search box, the notes that
    have the same pin flag and the same [updatedAt] as a given note are
    listed in the order they have in the store. *)
Theorem view_ties_keep_store_order (ns : list Note) (t : string) (x : Note) :
  Str.trim t = "" ->
  let tied := fun z : Note =>
                Bool.eqb (pinned z) (pinned x) && String.eqb (updatedAt z) (updatedAt x) in
  List.filter tied (filteredNotes ns t) = List.filter tied ns.
Proof.
  intros Ht tied. rewrite (filteredNotes_blank ns t Ht).
  rewrite filter_sort by (apply compareNotes_total || apply compareNotes_trans).
  apply sort_all_tied. intros a b Ha Hb.
  apply filter_In in Ha as [_ Ha]. apply filter_In in Hb as [_ Hb].
  unfold tied in Ha, Hb. apply andb_true_iff in Ha as [Hpa Hua], Hb as [Hpb Hub].
  apply Bool.eqb_prop in Hpa, Hpb. apply String.eqb_eq in Hua, Hub.
  unfold compareNotes, Number. rewrite Hpa, Hpb, Hua, Hub.
  destruct (pinned x); simpl; rewrite localeCompare_refl; lia.
Qed.

Lemma view_ties_keep_store_order_witness :
  List.filter (fun z : Note =>
                 Bool.eqb (pinned z) (pinned work)
                 && String.eqb (updatedAt z) (updatedAt work))
    (filteredNotes [groceries; work; ideas; mergeNote work renameWork (updatedAt work)] " ")
  = [work; mergeNote work renameWork (updatedAt work)].
Proof.
  rewrite (view_ties_keep_store_order
             [groceries; work; ideas; mergeNote work renameWork (updatedAt work)] " " work);
    reflexivity.
Defined.

Lemma includes_trans (x a b : string) :
  Str.includes x a = true -> Str.includes a b = true -> Str.includes x b = true.
Proof.
  rewrite !includes_spec. intros (p1 & q1 & ->) (p2 & q2 & ->).
  exists (p1 ++ p2), (q2 ++ q1). now rewrite !string_app_assoc.
Qed.

Lemma matchesTerm_narrow (long short : string) (note : Note) :
  Str.includes long short = true ->
  matchesTerm long note = true -> matchesTerm short note = true.
Proof.
  intros Hls. unfold matchesTerm. rewrite !orb_true_iff.
  intros [Hm|Hm]; [left | right]; now apply includes_trans with long.
Qed.

Lemma filter_filter_narrow {A} (p q : A -> bool) (l : list A) :
  (forall x, p x = true -> q x = true) ->
  List.filter p (List.filter q l) = List.filter p l.
Proof.
  intros Hpq. induction l as [|x l IH]; [reflexivity|]. simpl.
  destruct (q x) eqn:Hq; simpl; [now rewrite IH|].
  destruct (p x) eqn:Hp; [|exact IH]. apply Hpq in Hp. congruence.
Qed.

(** X18. Narrowing a search: when the lower-cased form of a term contains
    the lower-cased form of another term, the view for the first is the
    view for the second with the notes that do not match the first taken
    out, the others staying in their order.  Typing more into the search
    box narrows the list whenever the text typed before still occurs in
    the new text after lower-casing. *)
Theorem search_narrows (ns : list Note) (t t' : string) :
  Str.trim t' <> "" ->
  Str.includes (Str.toLowerCase t') (Str.toLowerCase t) = true ->
  filteredNotes ns t'
  = List.filter (matchesTerm (Str.toLowerCase t')) (filteredNotes ns t).
Proof.
  intros Hlong Hinc. rewrite (filteredNotes_term ns _ Hlong).
  destruct (String.string_dec (Str.trim t) "") as [Hblank|Hterm].
  - rewrite (filteredNotes_blank ns t Hblank). symmetry.
    apply filter_sort; [apply compareNotes_total | apply compareNotes_trans].
  - rewrite (filteredNotes_term ns t Hterm).
    rewrite filter_sort by (apply compareNotes_total || apply compareNotes_trans).
    rewrite filter_filter_narrow; [reflexivity|]. intros note. now apply matchesTerm_narrow.
Qed.

Lemma search_narrows_witness :
  filteredNotes (notes sampleState) "Report"
  = List.filter (matchesTerm (Str.toLowerCase "Report")) (filteredNotes (notes sampleState) "O").
Proof. apply (search_narrows (notes sampleState) "O" "Report"); [discriminate | reflexivity]. Defined.

(** * The view, whatever the host's case mapping and collation *)

Section HostViewFacts.
Context {U T : Type} `{EqDecision U}.
Variables (title content updatedAt : T -> list U) (pinned : T -> bool).
Variables (toLowerCase trim : list U -> list U).
Variable localeCompare : list U -> list U -> Z.

Lemma unitsStartWith_spec (s t : list U) :
  unitsStartWith s t = true <-> exists post, s = (t ++ post)%list.
Proof.
  revert s. induction t as [|c t IH]; intros s; cbn [unitsStartWith].
  - split; [intros _; now exists s | reflexivity].
  - destruct s as [|d s]; [split; [discriminate | intros [post Hp]; discriminate]|].
    rewrite andb_true_iff, bool_decide_eq_true, IH. split.
    + intros [-> [post ->]]. now exists post.
    + intros [post [= -> ->]]. split; [reflexivity | now exists post].
Qed.

Lemma unitsInclude_spec (s t : list U) : unitsInclude s t = true <-> occursIn t s.
Proof.
  unfold occursIn.
  induction s as [|c s IH]; cbn [unitsInclude]; rewrite orb_true_iff, unitsStartWith_spec.
  - split.
    + intros [[post Hp]|Hf]; [now exists [], post | discriminate].
    + intros (pre & post & Hp). left. destruct pre; [now exists post | discriminate].
  - rewrite IH. split.
    + intros [[post Hp]|(pre & post & Hp)]; [now exists [], post|].
      exists (c :: pre), post. now rewrite Hp.
    + intros (pre & post & Hp). destruct pre as [|d pre]; [left; now exists post|].
      right. injection Hp as _ Hp. now exists pre, post.
Qed.

Lemma matchesTermBy_spec (term : list U) (note : T) :
  matchesTermBy title content toLowerCase term note = true
  <-> occursIn term (toLowerCase (title note)) \/ occursIn term (toLowerCase (content note)).
Proof. unfold matchesTermBy. now rewrite orb_true_iff, !unitsInclude_spec. Qed.

Lemma occursIn_map (lowerUnit : U -> U) (term s : list U) :
  occursIn (map lowerUnit term) (map lowerUnit s)
  <-> containsIgnoringCaseBy lowerUnit term s.
Proof.
  unfold occursIn, containsIgnoringCaseBy. split.
  - intros (pre' & post' & Hs).
    apply map_eq_app in Hs as (pre & rest & -> & _ & Hrest).
    apply map_eq_app in Hrest as (mid & post & -> & Hmid & _).
    now exists pre, mid, post.
  - intros (pre & mid & post & -> & Hmid).
    exists (map lowerUnit pre), (map lowerUnit post). now rewrite !List.map_app, Hmid.
Qed.

Lemma unitsTruthy_true (s : list U) : unitsTruthy s = true <-> s <> [].
Proof. destruct s; simpl; split; congruence. Qed.

(** The collation is a consistent comparison: of two strings one is not
    after the other, and "not after" is transitive. *)
Hypothesis localeCompare_total :
  forall a b, 0 < localeCompare a b -> localeCompare b a <= 0.
Hypothesis localeCompare_transitive :
  forall a b c, localeCompare a b <= 0 -> localeCompare b c <= 0 -> localeCompare a c <= 0.

Lemma compareNotesBy_total (a b : T) :
  0 < compareNotesBy updatedAt pinned localeCompare a b ->
  compareNotesBy updatedAt pinned localeCompare b a <= 0.
Proof.
  unfold compareNotesBy, Number.
  destruct (pinned a), (pinned b); simpl; try lia; apply localeCompare_total.
Qed.

Lemma compareNotesBy_trans (a b c : T) :
  compareNotesBy updatedAt pinned localeCompare a b <= 0 ->
  compareNotesBy updatedAt pinned localeCompare b c <= 0 ->
  compareNotesBy updatedAt pinned localeCompare a c <= 0.
Proof.
  unfold compareNotesBy, Number.
  destruct (pinned a), (pinned b), (pinned c); simpl; try lia;
    intros H1 H2; eapply localeCompare_transitive; eassumption.
Qed.

Lemma compareNotesBy_displayBefore (a b : T) :
  compareNotesBy updatedAt pinned localeCompare a b <= 0
  <-> displayBeforeBy updatedAt pinned localeCompare a b.
Proof.
  unfold compareNotesBy, displayBeforeBy, Number.
  destruct (pinned a), (pinned b); simpl; split; intros Hab;
    try lia; try (right; split; [reflexivity | exact Hab]);
    try (left; split; reflexivity);
    destruct Hab as [[? ?]|[? Hab]]; try discriminate; try exact Hab; lia.
Qed.

Lemma sortBy_sorted (l : list T) :
  StronglySorted (displayBeforeBy updatedAt pinned localeCompare)
    (sort (compareNotesBy updatedAt pinned localeCompare) l).
Proof.
  pose proof (sort_sorted (compareNotesBy updatedAt pinned localeCompare)
                compareNotesBy_total compareNotesBy_trans l) as Hs.
  induction Hs as [|x xs Hxs IH Hx]; constructor; [exact IH|].
  eapply Forall_impl; [exact Hx|]. intros y. apply compareNotesBy_displayBefore.
Qed.

(** C1, as the code has it.  The view is a function of the note list and
    the search term alone.  With a search term (one that [trim] does not
    empty) it holds exactly the notes, with their multiplicity, for which
    the lower-cased term occurs in the lower-cased title or in the
    lower-cased content, each of the three strings being lower-cased as a
    whole by the host; a match in the content alone is enough.  Where the
    host's mapping works unit by unit, these are the notes whose title or
    content contains the term when case is ignored.  With a blank term the
    view holds every note.  In both cases it is in display order for the
    host's collation, and a pinned note never comes after an unpinned one,
    whatever the timestamps. *)
Theorem filteredNotesBy_view (notes : list T) (searchTerm : list U) :
  let view :=
    filteredNotesBy title content updatedAt pinned toLowerCase trim localeCompare
      notes searchTerm in
  let matches := fun note : T =>
    occursIn (toLowerCase searchTerm) (toLowerCase (title note))
    \/ occursIn (toLowerCase searchTerm) (toLowerCase (content note)) in
  (trim searchTerm <> [] ->
     Permutation view
       (List.filter (matchesTermBy title content toLowerCase (toLowerCase searchTerm)) notes)
     /\ (forall note, In note view <-> In note notes /\ matches note)
     /\ (forall note, In note notes ->
           occursIn (toLowerCase searchTerm) (toLowerCase (content note)) ->
           In note view)
     /\ (forall lowerUnit : U -> U,
           (forall s, toLowerCase s = map lowerUnit s) ->
           forall note,
             In note view
             <-> In note notes
                 /\ (containsIgnoringCaseBy lowerUnit searchTerm (title note)
                     \/ containsIgnoringCaseBy lowerUnit searchTerm (content note))))
  /\ (trim searchTerm = [] -> Permutation view notes)
  /\ StronglySorted (displayBeforeBy updatedAt pinned localeCompare) view
  /\ (forall (i j : nat) (a b : T),
        (i < j)%nat -> view !! i = Some a -> view !! j = Some b ->
        pinned b = true -> pinned a = true).
Proof.
  intros view matches.
  assert (Hsorted : StronglySorted (displayBeforeBy updatedAt pinned localeCompare) view).
  { unfold view, filteredNotesBy. destruct (negb _); apply sortBy_sorted. }
  split; [|split; [|split]].
  - intros Hterm.
    assert (Hperm : Permutation view
              (List.filter (matchesTermBy title content toLowerCase (toLowerCase searchTerm))
                           notes)).
    { unfold view, filteredNotesBy. apply unitsTruthy_true in Hterm. rewrite Hterm.
      symmetry. apply sort_perm. }
    assert (Hin : forall note, In note view <-> In note notes /\ matches note).
    { intros note. unfold matches. rewrite <- matchesTermBy_spec, <- filter_In.
      split; apply Permutation_in; [|symmetry]; exact Hperm. }
    split; [exact Hperm|]. split; [exact Hin|]. split.
    + intros note Hn Hc. apply Hin. split; [exact Hn | now right].
    + intros lowerUnit Hunit note. rewrite Hin. unfold matches.
      now rewrite !Hunit, !occursIn_map.
  - intros Hblank. unfold view, filteredNotesBy. rewrite Hblank. symmetry. apply sort_perm.
  - exact Hsorted.
  - intros i j a b Hij Hi Hj Hb.
    destruct (StronglySorted_lookup _ _ _ _ _ _ Hsorted Hij Hi Hj) as [[Ha _]|[Hab _]];
      congruence.
Qed.
End HostViewFacts.

(** ** The model [Str] is an instance *)

Lemma sort_insert_ext {A} (f g : A -> A -> Z) (x : A) (l : list A) :
  (forall a b, f a b = g a b) -> sort_insert f x l = sort_insert g x l.
Proof.
  intros Hfg. induction l as [|y l IH]; [reflexivity|]. simpl. now rewrite Hfg, IH.
Qed.

Lemma sort_ext {A} (f g : A -> A -> Z) (l : list A) :
  (forall a b, f a b = g a b) -> sort f l = sort g l.
Proof.
  intros Hfg. induction l as [|x l IH]; [reflexivity|].
  cbn [sort foldr]. fold (sort f l). fold (sort g l).
  now rewrite IH, (sort_insert_ext f g x _ Hfg).
Qed.

Lemma unitsStartWith_prefix (s t : string) :
  unitsStartWith (units s) (units t) = String.prefix t s.
Proof.
  revert s. induction t as [|c t IH]; intros s; [now destruct s|].
  destruct s as [|d s]; [reflexivity|].
  cbn [units list_ascii_of_string unitsStartWith String.prefix].
  fold (units t). fold (units s). rewrite IH.
  destruct (ascii_dec c d) as [Heq|Hne].
  - now rewrite bool_decide_eq_true_2.
  - now rewrite bool_decide_eq_false_2.
Qed.

Lemma unitsInclude_includes (s t : string) :
  unitsInclude (units s) (units t) = Str.includes s t.
Proof.
  induction s as [|c s IH].
  - cbn [Str.includes]. rewrite <- unitsStartWith_prefix. cbn. now rewrite orb_false_r.
  - cbn [Str.includes]. rewrite <- unitsStartWith_prefix, <- IH. reflexivity.
Qed.

Lemma string_of_units (s : string) : string_of_list_ascii (units s) = s.
Proof. apply string_of_list_ascii_of_string. Qed.

(** The view in the model [Str] is the view over code units at [Str]'s
    functions. *)
Lemma filteredNotes_latin1View (ns : list Note) (t : string) :
  filteredNotes ns t = latin1View ns t.
Proof.
  unfold latin1View, filteredNotesBy, filteredNotes, onUnits.
  rewrite !string_of_units.
  assert (Htruthy : unitsTruthy (units (Str.trim t)) = Str.truthy (Str.trim t))
    by now destruct (Str.trim t).
  rewrite Htruthy.
  assert (Hcmp : forall a b : Note,
             compareNotes a b
             = compareNotesBy (fun n => units (updatedAt n)) pinned compareUnits a b).
  { intros a b. unfold compareNotes, compareNotesBy, compareUnits.
    now rewrite !string_of_units. }
  destruct (negb _); [now apply sort_ext|].
  rewrite (sort_ext _ _ _ Hcmp). f_equal. apply List.filter_ext. intros note.
  unfold matchesTerm, matchesTermBy. now rewrite !string_of_units, !unitsInclude_includes.
Qed.

Lemma compareUnits_total (a b : list ascii) :
  0 < compareUnits a b -> compareUnits b a <= 0.
Proof. unfold compareUnits. rewrite (localeCompare_antisym (string_of_list_ascii b)). lia. Qed.

Lemma compareUnits_trans (a b c : list ascii) :
  compareUnits a b <= 0 -> compareUnits b c <= 0 -> compareUnits a c <= 0.
Proof. unfold compareUnits. apply localeCompare_trans. Qed.

(** C1 at the sample notes, in the model [Str]: "milk" occurs in the
    content of one note only, in capitals, and that note is in the view. *)
Lemma filteredNotesBy_view_witness :
  In groceries (latin1View (notes sampleState) "milk")
  /\ StronglySorted
       (displayBeforeBy (fun n => units (updatedAt n)) pinned compareUnits)
       (latin1View (notes sampleState) "milk").
Proof.
  destruct (filteredNotesBy_view (fun n => units (title n)) (fun n => units (content n))
              (fun n => units (updatedAt n)) pinned
              (onUnits Str.toLowerCase) (onUnits Str.trim) compareUnits
              compareUnits_total compareUnits_trans
              (notes sampleState) (units "milk")) as (Hterm & _ & Hsorted & _).
  split; [|exact Hsorted].
  destruct (Hterm ltac:(discriminate)) as (_ & _ & Hcontent & _).
  apply Hcontent; [now left|].
  exists (units "buy "), (units " and eggs"). reflexivity.
Defined.

(** The claim of C1 fails where the host's lower-casing depends on the
    context.  The title of the note is capital alpha, capital sigma, and
    the term is capital sigma: the title holds the term as it stands.
    Lower-cased as a whole the title ends in the final sigma U+03C2, the
    term alone becomes U+03C3, so the view for that term, in any
    collation, does not hold the note. *)
Lemma final_sigma_counterexample :
  occursIn capitalSigma (Utf16.title alphaSigma)
  /\ Utf16.trim capitalSigma <> []
  /\ Utf16.toLowerCase (Utf16.title alphaSigma) = [0x3B1%N; 0x3C2%N]
  /\ Utf16.toLowerCase capitalSigma = [0x3C3%N]
  /\ (forall localeCompare : list N -> list N -> Z,
        Utf16.filteredNotes localeCompare [alphaSigma] capitalSigma = []).
Proof.
  split; [now exists [0x391%N], []|].
  split; [discriminate|]. split; [reflexivity|]. split; [reflexivity|].
  intros localeCompare. reflexivity.
Qed.

(** * Initialization of the store *)

(** C8, as the code has it.  For every value in the storage,
    [getInitialNotes] returns, a failure leaving only a console warning:
    the empty list when the key is absent, when its value is the empty
    string, when it is not valid JSON, when it parses to something that is
    not an array, where there is no [window] and where the storage cannot
    be read; the parsed array otherwise.  The mount effect, which stores
    that list and selects its first element's id, ends normally with that
    list in every case but one: when the first element of the array is
    [null], reading its id throws a TypeError that nothing catches. *)
Theorem store_initialization
    (JSON_parse : string -> outcome json) (window : option Window) (log : Console) :
  exists (loaded : list json) (log' : Console),
    getInitialNotes JSON_parse window log = (Returns loaded, log')
    /\ (window = None -> loaded = [] /\ log' = log)
    /\ (forall w error,
          window = Some w -> localStorage w = Throws error ->
          loaded = [] /\ log' = (log ++ [("Unable to load notes", error)])%list)
    /\ (forall w storage,
          window = Some w -> localStorage w = Returns storage ->
          let raw := storage !! STORAGE_KEY in
          (raw = None -> loaded = [] /\ log' = log)
          /\ (raw = Some "" -> loaded = [] /\ log' = log)
          /\ (forall text error,
                raw = Some text -> text <> "" -> JSON_parse text = Throws error ->
                loaded = [] /\ log' = (log ++ [("Unable to load notes", error)])%list)
          /\ (forall text v,
                raw = Some text -> text <> "" -> JSON_parse text = Returns v ->
                Array_isArray v = false ->
                loaded = [] /\ log' = log)
          /\ (forall text items,
                raw = Some text -> text <> "" -> JSON_parse text = Returns (JArray items) ->
                loaded = items /\ log' = log))
    /\ (head loaded <> Some JNull ->
        exists sel : selection,
          mountEffect JSON_parse window log = (Returns (loaded, sel), log'))
    /\ (head loaded = Some JNull ->
        mountEffect JSON_parse window log = (Throws "TypeError", log')).
Proof.
  destruct (getInitialNotes_spec JSON_parse window log)
    as (loaded & log' & Hload & Hnone & Hdenied & Hread).
  exists loaded, log'. split; [exact Hload|]. split; [exact Hnone|].
  split; [exact Hdenied|]. split; [exact Hread|].
  unfold mountEffect, bind, call, ret. rewrite Hload.
  destruct loaded as [|first rest]; [split; [eauto | discriminate]|].
  destruct first; cbn [head readId]; (split; [intros Hne | intros Heq]);
    eauto; try discriminate; now contradiction Hne.
Qed.

Lemma store_initialization_witness :
  getInitialNotes Json.parse (Some brokenWindow) []
  = (Returns [], [("Unable to load notes", "SyntaxError")])
  /\ mountEffect Json.parse (Some brokenWindow) []
     = (Returns ([], Unset), [("Unable to load notes", "SyntaxError")]).
Proof.
  destruct (store_initialization Json.parse (Some brokenWindow) [])
    as (loaded & log' & Heq & _ & _ & Hread & Hmount & _).
  destruct (Hread brokenWindow brokenStorage eq_refl eq_refl) as (_ & _ & Hthrows & _).
  destruct (Hthrows "{oops" "SyntaxError") as [-> ->].
  - apply lookup_singleton_eq.
  - discriminate.
  - reflexivity.
  - split; [exact Heq|].
    assert (Hhead : head ([] : list json) <> Some JNull) by discriminate.
    destruct (Hmount Hhead) as [sel Hsel].
    assert (Hunset : sel = Unset).
    { pose proof Hsel as Hrun. unfold mountEffect, bind in Hrun. rewrite Heq in Hrun.
      now injection Hrun as <-. }
    now rewrite <- Hunset.
Defined.

(** The claim of C8 fails on a stored array that starts with [null]: the
    text is valid JSON and an array, [getInitialNotes] returns it without
    a warning, and the mount effect throws. *)
Lemma initialization_null_counterexample :
  localStorage nullWindow = Returns {[ STORAGE_KEY := "[null]" ]}
  /\ Json.parse "[null]" = Returns (JArray [JNull])
  /\ getInitialNotes Json.parse (Some nullWindow) [] = (Returns [JNull], [])
  /\ mountEffect Json.parse (Some nullWindow) [] = (Throws "TypeError", []).
Proof. repeat split. Qed.
